(** * Universe_Simulation: a particle-mesh N-body simulator

    Shallow embedding of
      - [src/unnamed/part_000]        (the current [Simulation] class),
      - [src/lib/Simulation.cpp]      (the earlier, per-cell counting depositor),
      - [src/app/NBody_Comparison.cpp] (the MPI sweep driver),
    followed by the properties the specification states about them.

    Conventions of the embedding.
      - [unsigned int] and [int] are 32 bits wide, [size_t] is 64 bits wide;
        every integer operation of the source is written with its
        wrap-around.
      - [double] values are idealised as exact rationals ([Q]): rounding,
        infinities and NaN are outside the model.  A division by zero,
        which yields an infinity in the source, is the rational [0] here;
        the theorems below only divide by non-zero numbers where that
        matters.
      - Raw buffers ([fftw_complex *]) and [std::vector]s are lists; an
        access outside the allocated range is undefined behaviour in the
        source and the explicit fault [OutOfBounds] here.
      - [while] loops carry a fuel bound; running out of it is the fault
        [OutOfFuel].
      - OpenMP pragmas are read sequentially: the loop bodies they mark are
        independent or use an atomic update. *)

From Stdlib Require Import ZArith QArith Qround Qfield Qpower Lia Lqa String.
From stdpp Require Import base list.

Local Open Scope Z_scope.

(** ** Machine integers *)

Definition INT_MAX : Z := 2 ^ 31 - 1.

(** Conversion to [unsigned int] (reduction modulo 2^32). *)
Definition uint (z : Z) : Z := z mod 2 ^ 32.

(** Conversion to [int] (two's complement). *)
Definition to_int (z : Z) : Z := (z + 2 ^ 31) mod 2 ^ 32 - 2 ^ 31.

(** Conversion to [size_t] (reduction modulo 2^64). *)
Definition size_t (z : Z) : Z := z mod 2 ^ 64.

Definition uadd (a b : Z) : Z := uint (a + b).
Definition usub (a b : Z) : Z := uint (a - b).
Definition umul (a b : Z) : Z := uint (a * b).

(** ** Doubles *)

Abbreviation double := Q (only parsing).

(** [M_PI] of <cmath>: the double nearest to pi, 0x400921FB54442D18. *)
Definition M_PI : double := (884279719003555 # 281474976710656)%Q.

(** [std::floor] *)
Definition floor (x : double) : double := inject_Z (Qfloor x).

(** Conversion of a double to an integer type truncates towards zero;
    out-of-range values, undefined in the source, wrap. *)
Definition Qtruncate (x : double) : Z := Z.quot (Qnum x) (Z.pos (Qden x)).
Definition uint_of_double (x : double) : Z := uint (Qtruncate x).
Definition size_t_of_double (x : double) : Z := size_t (Qtruncate x).

Definition Qlt_bool (x y : Q) : bool := negb (Qle_bool y x).

(** [fftw_complex] is [double[2]]: component 0 is the real part. *)
Abbreviation fftw_complex := (Q * Q)%type.
Definition re (c : fftw_complex) : Q := fst c.
Definition im (c : fftw_complex) : Q := snd c.
Definition czero : fftw_complex := (0%Q, 0%Q).
Definition sizeof_fftw_complex : Z := 16.

(** ** Outcomes of a computation *)

Inductive exception : Type :=
| invalid_argument (what : string)
| overflow_error (what : string).

Inductive fault : Type :=
| Thrown (e : exception)
| OutOfBounds
| OutOfFuel.

Inductive result (A : Type) : Type :=
| Ok (a : A)
| Fail (f : fault).
Arguments Ok {A} a.
Arguments Fail {A} f.

Definition bind {A B : Type} (m : result A) (k : A -> result B) : result B :=
  match m with
  | Ok a => k a
  | Fail f => Fail f
  end.

Notation "'do' x <~ m ; k" := (bind m (fun x => k))
  (at level 10, x name, m at level 100, k at level 200).

(** ** Arrays and loops *)

(** [buf[idx]] as an rvalue. *)
Definition read {A : Type} (buf : list A) (idx : Z) : result A :=
  if idx <? 0 then Fail OutOfBounds
  else match buf !! Z.to_nat idx with
       | Some a => Ok a
       | None => Fail OutOfBounds
       end.

(** [buf[idx] = f (buf[idx])]. *)
Definition write {A : Type} (buf : list A) (idx : Z) (f : A -> A) : result (list A) :=
  if (0 <=? idx) && (idx <? Z.of_nat (length buf))
  then Ok (alter f (Z.to_nat idx) buf)
  else Fail OutOfBounds.

(** [std::memset (buf, 0, bytes)] on a buffer of [fftw_complex]. *)
Definition memset_zero (buf : list fftw_complex) (bytes : Z) : result (list fftw_complex) :=
  let n := Z.to_nat (bytes / sizeof_fftw_complex) in
  if bytes <=? sizeof_fftw_complex * Z.of_nat (length buf)
  then Ok (replicate n czero ++ drop n buf)
  else Fail OutOfBounds.

(** The values [lo, lo+1, ..., hi-1] a counting [for] loop runs through. *)
Definition range (lo hi : Z) : list Z :=
  map (fun n => lo + Z.of_nat n) (seq 0 (Z.to_nat (hi - lo))).

(** A [for] loop over [l] that threads the state [s]. *)
Fixpoint for_each {A S : Type} (l : list A) (body : A -> S -> result S) (s : S) : result S :=
  match l with
  | [] => Ok s
  | a :: l' => do s' <~ body a s; for_each l' body s'
  end.

(** A [for] loop over [l] whose iteration [a] only rewrites element [a]. *)
Fixpoint map_each {A B : Type} (f : A -> result B) (l : list A) : result (list B) :=
  match l with
  | [] => Ok []
  | a :: l' => do b <~ f a; do bs <~ map_each f l'; Ok (b :: bs)
  end.

(** [while (cond (s)) s = body (s);] *)
Fixpoint while_loop {S : Type} (fuel : nat) (cond : S -> bool) (body : S -> S) (s : S) : result S :=
  if cond s then
    match fuel with
    | O => Fail OutOfFuel
    | Datatypes.S fuel' => while_loop fuel' cond body (body s)
    end
  else Ok s.

(** Three-fold nested [std::vector]. *)
Abbreviation vector3 A := (list (list (list A))).

Definition make3 {A : Type} (n : Z) (a : A) : vector3 A :=
  replicate (Z.to_nat n) (replicate (Z.to_nat n) (replicate (Z.to_nat n) a)).

Definition read3 {A : Type} (v : vector3 A) (i j k : Z) : result A :=
  do vi <~ read v i; do vij <~ read vi j; read vij k.

Definition write3 {A : Type} (v : vector3 A) (i j k : Z) (f : A -> A) : result (vector3 A) :=
  do vi <~ read v i;
  do vij <~ read vi j;
  do vij' <~ write vij k f;
  do vi' <~ write vi j (fun _ => vij');
  write v i (fun _ => vi').

(** ** Particles

    Modelled from the spec: [particle.hpp] is not among the sources.  The
    spec's data model gives a particle a position and a velocity (three
    doubles each, indexed 0..2 in the code) and a particle group an
    ordered sequence of particles plus one shared mass;
    [get_num_particles ()] (and the field [num_particles] of the earlier
    version) is the length of that sequence. *)

Record array3 : Type := mk3 { c0 : Q; c1 : Q; c2 : Q }.

Record particle : Type := mk_particle {
  position : array3;
  velocity : array3
}.

Record particle_group : Type := mk_group {
  mass : Q;
  particles : list particle
}.

Definition get_num_particles (g : particle_group) : Z := Z.of_nat (length (particles g)).

(** ** FFTW

    The transforms are external.  A plan made by [fftw_plan_dft_3d (n0, n1,
    n2, in, out, sign, flags)] reads [n0*n1*n2] values from [in] and, when
    executed, writes as many to [out]; [dft n sign input idx] stands for
    the value it writes at index [idx], and is a parameter of the
    definitions that execute plans.  The plans of the simulation are out
    of place, so executing one leaves its input array as it was.  What
    planning itself does to the arrays is not modelled. *)

Inductive fftw_sign : Type := FFTW_FORWARD | FFTW_BACKWARD.

Definition fftw_transform : Type := Z -> fftw_sign -> list fftw_complex -> Z -> fftw_complex.

Definition fftw_execute (dft : fftw_transform) (n : Z) (sign : fftw_sign)
    (input output : list fftw_complex) : result (list fftw_complex) :=
  if (n * n * n <=? Z.of_nat (length input)) && (n * n * n <=? Z.of_nat (length output))
  then Ok (map (dft n sign input) (range 0 (n * n * n))
             ++ drop (Z.to_nat (n * n * n)) output)
  else Fail OutOfBounds.

(** ** The simulation object

    [Simulation.hpp] is not among the sources; the members are those the
    constructor initialises.  The two plans are fixed by
    [number_of_cells] and the direction, so they are not stored. *)

Record Simulation : Type := mk_Simulation {
  time_max : Q;
  time_step : Q;
  particle_collection : particle_group;
  box_width : Q;
  number_of_cells : Z;
  expansion_factor : Q;
  density_buffer : list fftw_complex;
  potential_buffer : list fftw_complex;
  k_space_buffer : list fftw_complex
}.

Definition set_density (s : Simulation) (b : list fftw_complex) : Simulation :=
  mk_Simulation (time_max s) (time_step s) (particle_collection s) (box_width s)
    (number_of_cells s) (expansion_factor s) b (potential_buffer s) (k_space_buffer s).

Definition set_potential (s : Simulation) (b : list fftw_complex) : Simulation :=
  mk_Simulation (time_max s) (time_step s) (particle_collection s) (box_width s)
    (number_of_cells s) (expansion_factor s) (density_buffer s) b (k_space_buffer s).

Definition set_k_space (s : Simulation) (b : list fftw_complex) : Simulation :=
  mk_Simulation (time_max s) (time_step s) (particle_collection s) (box_width s)
    (number_of_cells s) (expansion_factor s) (density_buffer s) (potential_buffer s) b.

Definition set_particles (s : Simulation) (ps : list particle) : Simulation :=
  mk_Simulation (time_max s) (time_step s)
    (mk_group (mass (particle_collection s)) ps) (box_width s)
    (number_of_cells s) (expansion_factor s)
    (density_buffer s) (potential_buffer s) (k_space_buffer s).

Definition set_box_width (s : Simulation) (w : Q) : Simulation :=
  mk_Simulation (time_max s) (time_step s) (particle_collection s) w
    (number_of_cells s) (expansion_factor s)
    (density_buffer s) (potential_buffer s) (k_space_buffer s).

(** The flat mesh index [k + number_of_cells * (j + number_of_cells * i)]
    in [unsigned int] arithmetic. *)
Definition flat_index (n i j k : Z) : Z :=
  uadd k (umul n (uadd j (umul n i))).

(** The nearest-grid-point cell coordinate
    [uint i = std::floor (position * number_of_cells)]. *)
Definition cell_of (n : Z) (p : Q) : Z :=
  uint_of_double (floor (p * inject_Z n)).

(** *** [Simulation::Simulation]

    The first component is what the constructor prints on [std::cerr]. *)

Definition warn_contracting : string :=
  "Warning - e_factor is less than 1 so simulatation will represent contracting universe. This is functional however is unphysical.".

Definition warn_grid_length : string :=
  "Warning - num_cells (Grid Length) has been set to more than 400 units! This may have adverse effects on performance.".

Definition Simulation_new (t_max t_step : Q) (collection : particle_group) (W : Q)
    (num_cells : Z) (e_factor : Q) : list string * result Simulation :=
  if Qle_bool t_max 0 then
    ([], Fail (Thrown (invalid_argument
      "Error - t_max (maximum time reached) must not be less than or equal to 0!")))
  else if Qle_bool t_step 0 then
    ([], Fail (Thrown (invalid_argument
      "Error - t_step (time step) must not be less than or equal to 0!")))
  else if Qle_bool W 0 then
    ([], Fail (Thrown (invalid_argument
      "Error - W (Box Width) must not be less than or equal to 0!")))
  else if Qle_bool e_factor 0 then
    ([], Fail (Thrown (invalid_argument
      "Error - e_factor (expansion factor) must be larger than 0!")))
  else
    let cerr1 := if Qlt_bool e_factor 1 then [warn_contracting] else [] in
    if uint INT_MAX <? num_cells then
      (cerr1, Fail (Thrown (overflow_error
        "Error - The number of cells stated is invalid.")))
    else
      let cerr2 := if 400 <? num_cells then [warn_grid_length] else [] in
      let buffer_length := umul (umul num_cells num_cells) num_cells in
      let zeros := replicate (Z.to_nat buffer_length) czero in
      (cerr1 ++ cerr2,
       Ok (mk_Simulation t_max t_step collection W num_cells e_factor zeros zeros zeros)).

(** *** [Simulation::fill_density_buffer] *)

Definition deposit (s : Simulation) (current_particle : particle)
    (density : list fftw_complex) : result (list fftw_complex) :=
  let n := number_of_cells s in
  let i := cell_of n (c0 (position current_particle)) in
  let j := cell_of n (c1 (position current_particle)) in
  let k := cell_of n (c2 (position current_particle)) in
  let index := flat_index n i j k in
  let cell_width := (box_width s / inject_Z n)%Q in
  let single_density :=
    (mass (particle_collection s) / (cell_width * cell_width * cell_width))%Q in
  write density index (fun c => ((fst c + single_density)%Q, snd c)).

Definition fill_density_buffer (s : Simulation) : result Simulation :=
  let n := number_of_cells s in
  do zeroed <~ memset_zero (density_buffer s)
                 (size_t (size_t (size_t (sizeof_fftw_complex * n) * n) * n));
  do density <~ for_each (particles (particle_collection s)) (deposit s) zeroed;
  Ok (set_density s density).

(** *** [Simulation::fill_potential_buffer] *)

(** The factor the loop body computes for [index]; [i * i + j * j + k * k]
    is [unsigned int] arithmetic, converted to double for the division. *)
Definition norm_factor (s : Simulation) (index : Z) : Q :=
  let n := number_of_cells s in
  let i := index / umul n n in
  let j := (index / n) mod n in
  let k := index mod n in
  let cell_num := inject_Z n in
  (-4 * M_PI * box_width s * box_width s
     / inject_Z (uadd (uadd (umul i i) (umul j j)) (umul k k))
     * (1 / (8 * cell_num * cell_num * cell_num)))%Q.

Definition scale_mode (s : Simulation) (index : Z)
    (k_space : list fftw_complex) : result (list fftw_complex) :=
  do k_space1 <~ write k_space index (fun c => ((fst c * norm_factor s index)%Q, snd c));
  write k_space1 index (fun c => (fst c, (snd c * norm_factor s index)%Q)).

Definition fill_potential_buffer (dft : fftw_transform) (s : Simulation) : result Simulation :=
  let n := number_of_cells s in
  let total_size := umul (umul n n) n in
  do k_space0 <~ fftw_execute dft n FFTW_FORWARD (density_buffer s) (k_space_buffer s);
  do k_space1 <~ write k_space0 0 (fun c => (0%Q, snd c));
  do k_space2 <~ write k_space1 0 (fun c => (fst c, 0%Q));
  do k_space3 <~ for_each (range 1 total_size) (scale_mode s) k_space2;
  do potential <~ fftw_execute dft n FFTW_BACKWARD k_space3 (potential_buffer s);
  Ok (set_potential (set_k_space s k_space3) potential).

(** *** [Simulation::calculate_gradient] *)

(** [while (x >= number_of_cells) {x -= number_of_cells;}] with [x] an
    [int] and [number_of_cells] an [unsigned int]: the comparison and the
    subtraction are unsigned. *)
Definition wrap_high (fuel : nat) (n : Z) (x : Z) : result Z :=
  while_loop fuel (fun x => n <=? uint x) (fun x => to_int (usub (uint x) n)) x.

(** [while (x < 0) {x += number_of_cells;}] *)
Definition wrap_low (fuel : nat) (n : Z) (x : Z) : result Z :=
  while_loop fuel (fun x => x <? 0) (fun x => to_int (uadd (uint x) n)) x.

Definition gradient_cell (fuel : nat) (s : Simulation) (potential : list fftw_complex)
    (i j k : Z) (gradient : vector3 array3) : result (vector3 array3) :=
  let n := number_of_cells s in
  let cell_width := (box_width s / inject_Z n)%Q in
  do i_high <~ wrap_high fuel n (to_int (i + 1));
  do i_low <~ wrap_low fuel n (to_int (i - 1));
  do j_high <~ wrap_high fuel n (to_int (j + 1));
  do j_low <~ wrap_low fuel n (to_int (j - 1));
  do k_high <~ wrap_high fuel n (to_int (k + 1));
  do k_low <~ wrap_low fuel n (to_int (k - 1));
  do xh <~ read potential (flat_index n (uint i_high) (uint j) (uint k));
  do xl <~ read potential (flat_index n (uint i_low) (uint j) (uint k));
  do g1 <~ write3 gradient i j k
            (fun g => mk3 ((fst xh - fst xl) / (2 * cell_width))%Q (c1 g) (c2 g));
  do yh <~ read potential (flat_index n (uint i) (uint j_high) (uint k));
  do yl <~ read potential (flat_index n (uint i) (uint j_low) (uint k));
  do g2 <~ write3 g1 i j k
            (fun g => mk3 (c0 g) ((fst yh - fst yl) / (2 * cell_width))%Q (c2 g));
  do zh <~ read potential (flat_index n (uint i) (uint j) (uint k_high));
  do zl <~ read potential (flat_index n (uint i) (uint j) (uint k_low));
  write3 g2 i j k
    (fun g => mk3 (c0 g) (c1 g) ((fst zh - fst zl) / (2 * cell_width))%Q).

Definition calculate_gradient (fuel : nat) (s : Simulation)
    (potential : list fftw_complex) : result (vector3 array3) :=
  let n := number_of_cells s in
  for_each (range 0 n) (fun i =>
    for_each (range 0 n) (fun j =>
      for_each (range 0 n) (fun k =>
        gradient_cell fuel s potential i j k)))
    (make3 n (mk3 0 0 0)).

(** *** [Simulation::update_particles] *)

(** The boundary conditions on one coordinate:
    [while (p < 0) {p += 1;}  while (p >= 1) {p -= 1;}] *)
Definition apply_boundary (fuel : nat) (p : Q) : result Q :=
  do p1 <~ while_loop fuel (fun p => Qlt_bool p 0) (fun p => (p + 1)%Q) p;
  while_loop fuel (fun p => Qle_bool 1 p) (fun p => (p - 1)%Q) p1.

Definition update_particle (fuel : nat) (s : Simulation) (gradient : vector3 array3)
    (current_particle : particle) : result particle :=
  let n := number_of_cells s in
  let pos := position current_particle in
  let vel := velocity current_particle in
  let i := cell_of n (c0 pos) in
  let j := cell_of n (c1 pos) in
  let k := cell_of n (c2 pos) in
  do g <~ read3 gradient i j k;
  let v0 := (c0 vel + -1 * c0 g * time_step s)%Q in
  let v1 := (c1 vel + -1 * c1 g * time_step s)%Q in
  let v2 := (c2 vel + -1 * c2 g * time_step s)%Q in
  do p0 <~ apply_boundary fuel (c0 pos + v0 * time_step s)%Q;
  do p1 <~ apply_boundary fuel (c1 pos + v1 * time_step s)%Q;
  do p2 <~ apply_boundary fuel (c2 pos + v2 * time_step s)%Q;
  Ok (mk_particle (mk3 p0 p1 p2) (mk3 v0 v1 v2)).

Definition update_particles (fuel : nat) (s : Simulation) : result Simulation :=
  do gradient <~ calculate_gradient fuel s (potential_buffer s);
  do ps <~ map_each (update_particle fuel s gradient) (particles (particle_collection s));
  Ok (set_particles s ps).

(** *** [Simulation::box_expansion] *)

Definition damp (a : Q) (p : particle) : particle :=
  mk_particle (position p)
    (mk3 (c0 (velocity p) / a) (c1 (velocity p) / a) (c2 (velocity p) / a))%Q.

Definition box_expansion (s : Simulation) : Simulation :=
  let s1 := set_box_width s (box_width s * expansion_factor s)%Q in
  set_particles s1 (map (damp (expansion_factor s1)) (particles (particle_collection s1))).

(** *** [Simulation::run]

    [advance] is the body of the [while] loop.  The snapshot written to
    [output_folder] every tenth iteration does not change the object and
    is left out.  [steps] bounds the iterations of the loop, [fuel] those
    of every inner [while]. *)

Definition advance (dft : fftw_transform) (fuel : nat) (s : Simulation) : result Simulation :=
  do s1 <~ fill_density_buffer s;
  do s2 <~ fill_potential_buffer dft s1;
  do s3 <~ update_particles fuel s2;
  Ok (box_expansion s3).

Fixpoint run_from (dft : fftw_transform) (fuel steps : nat) (t : Q) (s : Simulation)
    : result Simulation :=
  if Qlt_bool t (time_max s) then
    match steps with
    | O => Fail OutOfFuel
    | S steps' =>
        do s' <~ advance dft fuel s;
        run_from dft fuel steps' (t + time_step s)%Q s'
    end
  else Ok s.

Definition run (dft : fftw_transform) (fuel steps : nat) (s : Simulation) : result Simulation :=
  run_from dft fuel steps 0%Q s.

(** ** The earlier depositor, [src/lib/Simulation.cpp] *)

Module SimulationLib.

(** [Simulation::bin_particles]: the [std::floor] values index the
    vectors as [size_t], the counters are [unsigned int]. *)
Definition count_particle (s : Simulation) (current_particle : particle)
    (counts : vector3 Z) : result (vector3 Z) :=
  let n := number_of_cells s in
  write3 counts
    (size_t_of_double (floor (c0 (position current_particle) * inject_Z n)))
    (size_t_of_double (floor (c1 (position current_particle) * inject_Z n)))
    (size_t_of_double (floor (c2 (position current_particle) * inject_Z n)))
    (fun c => uadd c 1).

Definition bin_particles (s : Simulation) : result (vector3 Z) :=
  for_each (particles (particle_collection s)) (count_particle s)
    (make3 (number_of_cells s) 0).

(** [Simulation::fill_density_buffer] *)
Definition fill_cell (s : Simulation) (counts : vector3 Z) (i j k : Z)
    (density : list fftw_complex) : result (list fftw_complex) :=
  let n := number_of_cells s in
  let index := flat_index n i j k in
  let cell_width := (box_width s / inject_Z n)%Q in
  do c <~ read3 counts i j k;
  write density index
    (fun d => ((inject_Z c * mass (particle_collection s)
                 / (cell_width * cell_width * cell_width))%Q, snd d)).

Definition fill_density_buffer (s : Simulation) : result Simulation :=
  let n := number_of_cells s in
  do counts <~ bin_particles s;
  do density <~ for_each (range 0 n) (fun i =>
                  for_each (range 0 n) (fun j =>
                    for_each (range 0 n) (fun k =>
                      fill_cell s counts i j k)))
                  (density_buffer s);
  Ok (set_density s density).

(** [Simulation::fill_potential_buffer]: the forward plan goes from the
    density buffer to the potential buffer, the backward plan from the
    k-space buffer to the potential buffer; nothing is done in between. *)
Definition fill_potential_buffer (dft : fftw_transform) (s : Simulation) : result Simulation :=
  let n := number_of_cells s in
  do potential0 <~ fftw_execute dft n FFTW_FORWARD (density_buffer s) (potential_buffer s);
  do potential <~ fftw_execute dft n FFTW_BACKWARD (k_space_buffer s) potential0;
  Ok (set_potential s potential).

End SimulationLib.

(** ** The sweep driver, [src/app/NBody_Comparison.cpp]

    Only the exchange of the two scalars is modelled.  The messages in
    flight are a list, oldest first; [MPI_Recv] takes the oldest message
    with the requested source, destination and tag. *)

Module NBody_Comparison.

Record message : Type := mk_message {
  msg_source : Z;
  msg_dest : Z;
  msg_tag : Z;
  msg_payload : Q
}.

Definition MPI_Send (payload : Q) (me dest tag : Z) (net : list message) : list message :=
  net ++ [mk_message me dest tag payload].

Definition matches (source me tag : Z) (m : message) : bool :=
  (msg_source m =? source) && (msg_dest m =? me) && (msg_tag m =? tag).

Fixpoint MPI_Recv (source me tag : Z) (net : list message) : option (Q * list message) :=
  match net with
  | [] => None
  | m :: net' =>
      if matches source me tag m then Some (msg_payload m, net')
      else match MPI_Recv source me tag net' with
           | Some (x, rest) => Some (x, m :: rest)
           | None => None
           end
  end.

(** The branch [process_id == 0] of [main], up to the construction of its
    simulation: the expansion factor it simulates with and the messages
    it has sent. *)
Definition coordinator (num_proc : Z) (minimum_expansion_factor maximum_expansion_factor : Q)
    : Q * list message :=
  let process_id := 0 in
  let expansion_factor_step :=
    ((maximum_expansion_factor - minimum_expansion_factor) / inject_Z (num_proc - 1))%Q in
  let expansion_factor :=
    (minimum_expansion_factor + inject_Z process_id * expansion_factor_step)%Q in
  let net :=
    fold_left (fun net i =>
                 MPI_Send expansion_factor_step process_id i 1
                   (MPI_Send minimum_expansion_factor process_id i 0 net))
              (range 1 num_proc) [] in
  (expansion_factor, net).

(** The [else] branch of [main], up to the construction of its simulation:
    the expansion factor the peer simulates with. *)
Definition peer (process_id : Z) (net : list message) : option Q :=
  match MPI_Recv 0 process_id 0 net with
  | None => None
  | Some (expansion_factor_step, net1) =>
      match MPI_Recv 0 process_id 1 net1 with
      | None => None
      | Some (minimum_expansion_factor, _) =>
          Some (minimum_expansion_factor + inject_Z process_id * expansion_factor_step)%Q
      end
  end.

(** The expansion factor of every process of a run with [num_proc]
    processes. *)
Definition sweep (num_proc : Z) (emin emax : Q) (process_id : Z) : option Q :=
  if process_id =? 0 then Some (fst (coordinator num_proc emin emax))
  else peer process_id (snd (coordinator num_proc emin emax)).

End NBody_Comparison.

(** * Vocabulary of the specification

    The predicates and functions the properties below are stated with. *)

(** A nested vector with [n] entries at each of its three levels. *)
Definition shape3 {A : Type} (n : Z) (v : vector3 A) : Prop :=
  length v = Z.to_nat n
  /\ Forall (fun vi => length vi = Z.to_nat n
                       /\ Forall (fun vij => length vij = Z.to_nat n) vi) v.

Definition in_unit_interval (x : Q) : Prop := (0 <= x)%Q /\ (x < 1)%Q.

Definition in_unit_box (p : particle) : Prop :=
  in_unit_interval (c0 (position p))
  /\ in_unit_interval (c1 (position p))
  /\ in_unit_interval (c2 (position p)).

(** Invariant 2 of the data model: a positive cell count and three
    buffers of [N_c^3] cells each, where [N_c^3] is the [unsigned int]
    buffer length the constructor computes, so below 2^32. *)
Definition mesh_ok (s : Simulation) : Prop :=
  let n := number_of_cells s in
  1 <= n
  /\ n * n * n < 2 ^ 32
  /\ Z.of_nat (length (density_buffer s)) = n * n * n
  /\ Z.of_nat (length (potential_buffer s)) = n * n * n
  /\ Z.of_nat (length (k_space_buffer s)) = n * n * n.

(** The Green's-function factor as the specification writes it,
    [-4 pi W^2 / (i^2 + j^2 + k^2) * 1 / (8 N_c^3)], over the exact
    integers. *)
Definition green_factor (W : Q) (n i j k : Z) : Q :=
  (- (4 * M_PI) * (W * W) / inject_Z (i ^ 2 + j ^ 2 + k ^ 2)
     * (1 / (8 * inject_Z (n ^ 3))))%Q.

(** A transform and an object to run the statements on: a plan that
    copies its input, and a mesh of 3 x 3 x 3 cells with two moving
    particles. *)
Definition copy_transform : fftw_transform :=
  fun _ _ input idx => default czero (input !! Z.to_nat idx).

Definition sample_potential : list fftw_complex :=
  map (fun m => (inject_Z (m * m), inject_Z m)) (range 0 27).

Definition sample_simulation : Simulation :=
  mk_Simulation (3 # 100) (1 # 100)
    (mk_group (5 # 2)
       [mk_particle (mk3 (1 # 2) (3 # 4) (1 # 4)) (mk3 250 (-300) 0);
        mk_particle (mk3 (1 # 8) (7 # 8) (1 # 3)) (mk3 0 0 10)])
    3 3 (102 # 100)
    (replicate 27 czero) sample_potential (replicate 27 czero).

(** The density one particle adds, [mass / (cell_width)^3], as the loop
    body computes it. *)
Definition single_density (s : Simulation) : Q :=
  let cell_width := (box_width s / inject_Z (number_of_cells s))%Q in
  (mass (particle_collection s) / (cell_width * cell_width * cell_width))%Q.

(** The cell a particle is assigned to by the specification:
    [idx (i, j, k)] with [i = floor (p_x N_c)] and so on, over the exact
    integers. *)
Definition ngp_index (n : Z) (p : particle) : Z :=
  Qfloor (c2 (position p) * inject_Z n)
  + n * (Qfloor (c1 (position p) * inject_Z n)
         + n * Qfloor (c0 (position p) * inject_Z n)).

(** The number of particles assigned to cell [m]. *)
Definition hits (n : Z) (m : Z) (ps : list particle) : nat :=
  length (filter (fun p => ngp_index n p = m) ps).

(** The sum of the real parts of a buffer. *)
Definition sum_re (buf : list fftw_complex) : Q :=
  foldr (fun c acc => (fst c + acc)%Q) 0%Q buf.

(** The entry [v[i][j][k]], if there is one. *)
Definition get3 {A : Type} (v : vector3 A) (i j k : Z) : option A :=
  match v !! Z.to_nat i with
  | Some vi =>
      match vi !! Z.to_nat j with
      | Some vij => vij !! Z.to_nat k
      | None => None
      end
  | None => None
  end.

(** The real part of the potential at cell [(i, j, k)]. *)
Definition phi (n : Z) (potential : list fftw_complex) (i j k : Z) : Q :=
  fst (default czero (potential !! Z.to_nat (k + n * (j + n * i)))).

(** The central difference of the specification at cell [(i, j, k)],
    neighbours taken modulo [N_c]. *)
Definition central_difference (s : Simulation) (potential : list fftw_complex)
    (i j k : Z) : array3 :=
  let n := number_of_cells s in
  let h := (box_width s / inject_Z n)%Q in
  mk3 ((phi n potential ((i + 1) mod n) j k - phi n potential ((i - 1) mod n) j k) / (2 * h))%Q
      ((phi n potential i ((j + 1) mod n) k - phi n potential i ((j - 1) mod n) k) / (2 * h))%Q
      ((phi n potential i j ((k + 1) mod n) - phi n potential i j ((k - 1) mod n)) / (2 * h))%Q.

(** The cells of the mesh in the order the three nested loops visit them. *)
Definition cells (n : Z) : list (Z * Z * Z) :=
  flat_map (fun i => flat_map (fun j => map (fun k => (i, j, k)) (range 0 n)) (range 0 n))
           (range 0 n).

(** The fuel the boundary conditions need on a coordinate [p]. *)
Definition boundary_fuel (p : Q) : nat := Z.abs_nat (Qfloor p).

(** The gradient the integrator looks up for a particle: the central
    difference at its nearest-grid-point cell. *)
Definition gradient_at (s : Simulation) (p : particle) : array3 :=
  let n := number_of_cells s in
  central_difference s (potential_buffer s)
    (cell_of n (c0 (position p))) (cell_of n (c1 (position p))) (cell_of n (c2 (position p))).

(** The kick [v - grad * dt] and the drift [p + v * dt] before wrapping. *)
Definition kicked (s : Simulation) (g : array3) (p : particle) : array3 :=
  mk3 (c0 (velocity p) + -1 * c0 g * time_step s)%Q
      (c1 (velocity p) + -1 * c1 g * time_step s)%Q
      (c2 (velocity p) + -1 * c2 g * time_step s)%Q.

Definition drifted (s : Simulation) (g : array3) (p : particle) : array3 :=
  mk3 (c0 (position p) + c0 (kicked s g p) * time_step s)%Q
      (c1 (position p) + c1 (kicked s g p) * time_step s)%Q
      (c2 (position p) + c2 (kicked s g p) * time_step s)%Q.

Definition particle_fuel (s : Simulation) (g : array3) (p : particle) : nat :=
  Nat.max (boundary_fuel (c0 (drifted s g p)))
    (Nat.max (boundary_fuel (c1 (drifted s g p))) (boundary_fuel (c2 (drifted s g p)))).

(** Fuel that suffices for every loop of one integrator step. *)
Definition step_fuel (s : Simulation) : nat :=
  foldr (fun p acc => Nat.max (particle_fuel s (gradient_at s p) p) acc) 1%nat
        (particles (particle_collection s)).

(** One particle before and after an integrator step. *)
Definition kick_drift (s : Simulation) (p p' : particle) : Prop :=
  let g := gradient_at s p in
  velocity p' = kicked s g p
  /\ in_unit_box p'
  /\ (exists z, c0 (position p') == c0 (drifted s g p) + inject_Z z)%Q
  /\ (exists z, c1 (position p') == c1 (drifted s g p) + inject_Z z)%Q
  /\ (exists z, c2 (position p') == c2 (drifted s g p) + inject_Z z)%Q.

(** A computation whose result does not change when fuel is added. *)
Definition fuel_monotone {A : Type} (f : nat -> result A) : Prop :=
  forall fuel fuel' r, f fuel = Ok r -> (fuel <= fuel')%nat -> f fuel' = Ok r.

(** Invariants 1 and 2 of the data model together. *)
Definition well_formed (s : Simulation) : Prop :=
  mesh_ok s /\ Forall in_unit_box (particles (particle_collection s)).

(** The nearest-grid-point cell of a particle, over the exact integers. *)
Definition ngp_cell (n : Z) (p : particle) : Z * Z * Z :=
  (Qfloor (c0 (position p) * inject_Z n),
   Qfloor (c1 (position p) * inject_Z n),
   Qfloor (c2 (position p) * inject_Z n)).

(** The number of particles in cell [(i, j, k)]. *)
Definition cell_hits (n i j k : Z) (ps : list particle) : nat :=
  length (filter (fun p => ngp_cell n p = (i, j, k)) ps).

(** Two buffers with equal values, cell by cell. *)
Definition same_values (a b : list fftw_complex) : Prop :=
  Forall2 (fun x y => (fst x == fst y)%Q /\ (snd x == snd y)%Q) a b.

(** A gradient that is zero in its three components. *)
Definition vanishes (g : array3) : Prop :=
  (c0 g == 0)%Q /\ (c1 g == 0)%Q /\ (c2 g == 0)%Q.

(** A particle that keeps its velocity and moves by [v * dt], up to a
    whole number of box lengths. *)
Definition free_drift (s : Simulation) (p p' : particle) : Prop :=
  (c0 (velocity p') == c0 (velocity p))%Q
  /\ (c1 (velocity p') == c1 (velocity p))%Q
  /\ (c2 (velocity p') == c2 (velocity p))%Q
  /\ in_unit_box p'
  /\ (exists z, c0 (position p')
                == c0 (position p) + c0 (velocity p) * time_step s + inject_Z z)%Q
  /\ (exists z, c1 (position p')
                == c1 (position p) + c1 (velocity p) * time_step s + inject_Z z)%Q
  /\ (exists z, c2 (position p')
                == c2 (position p) + c2 (velocity p) * time_step s + inject_Z z)%Q.

(** * Properties *)

(** ** Machine integers and doubles *)

Lemma uint_small (z : Z) : 0 <= z < 2 ^ 32 -> uint z = z.
Proof. intros H. unfold uint. apply Z.mod_small. exact H. Qed.

Lemma uint_range (z : Z) : 0 <= uint z < 2 ^ 32.
Proof. unfold uint. apply Z.mod_pos_bound. lia. Qed.

Lemma uint_le (z : Z) : 0 <= z -> uint z <= z.
Proof. intros H. unfold uint. apply Z.mod_le; lia. Qed.

Lemma to_int_small (z : Z) : - 2 ^ 31 <= z < 2 ^ 31 -> to_int z = z.
Proof. intros H. unfold to_int. rewrite Z.mod_small; lia. Qed.

Lemma Qlt_bool_iff (x y : Q) : Qlt_bool x y = true <-> (x < y)%Q.
Proof.
  unfold Qlt_bool. rewrite negb_true_iff.
  destruct (Qle_bool y x) eqn:E.
  - apply Qle_bool_iff in E. split; [discriminate | intros H; exfalso; lra].
  - split; [intros _ | reflexivity].
    destruct (Qlt_le_dec x y) as [Hlt | Hle]; [exact Hlt |].
    apply Qle_bool_iff in Hle. congruence.
Qed.

Lemma Qle_bool_false (x y : Q) : Qle_bool x y = false <-> (y < x)%Q.
Proof.
  pose proof (Qlt_bool_iff y x) as H. unfold Qlt_bool in H.
  rewrite negb_true_iff in H. exact H.
Qed.

Lemma Qtruncate_inject_Z (z : Z) : Qtruncate (inject_Z z) = z.
Proof. unfold Qtruncate. simpl. apply Z.quot_1_r. Qed.

(** ** Loops *)

Lemma elem_of_range (lo hi x : Z) : x ∈ range lo hi <-> lo <= x < hi.
Proof.
  unfold range. rewrite list_elem_of_fmap. split.
  - intros (m & -> & Hm). apply elem_of_seq in Hm. lia.
  - intros H. exists (Z.to_nat (x - lo)). split; [lia |].
    apply elem_of_seq. lia.
Qed.

Lemma NoDup_range (lo hi : Z) : NoDup (range lo hi).
Proof.
  unfold range. apply NoDup_fmap_2; [intros a b H; lia | apply NoDup_seq].
Qed.

Lemma length_range (lo hi : Z) : length (range lo hi) = Z.to_nat (hi - lo).
Proof. unfold range. rewrite length_map. apply length_seq. Qed.

Lemma lookup_range (lo hi : Z) (m : nat) :
  Z.of_nat m < hi - lo -> range lo hi !! m = Some (lo + Z.of_nat m).
Proof.
  intros H. unfold range. rewrite list_lookup_fmap, lookup_seq_lt by lia.
  reflexivity.
Qed.

(** A loop whose iteration [a] establishes the invariant for the
    iterations done so far extended by [a]. *)
Lemma for_each_invariant {A S : Type} (I : list A -> S -> Prop)
    (body : A -> S -> result S) (l : list A) (s : S) :
  I [] s ->
  (forall done a rest s1, l = done ++ a :: rest -> I done s1 ->
     exists s2, body a s1 = Ok s2 /\ I (done ++ [a]) s2) ->
  exists s', for_each l body s = Ok s' /\ I l s'.
Proof.
  intros H0 Hstep.
  assert (forall rest done s1, l = done ++ rest -> I done s1 ->
            exists s', for_each rest body s1 = Ok s' /\ I l s') as Hgen.
  { induction rest as [| a rest IH]; intros done s1 Hl Hdone.
    - exists s1. rewrite app_nil_r in Hl. subst done. split; [reflexivity | exact Hdone].
    - destruct (Hstep done a rest s1 Hl Hdone) as (s2 & Hb & Hs2).
      cbn. rewrite Hb. cbn. apply (IH (done ++ [a])); [| exact Hs2].
      rewrite <- app_assoc. exact Hl. }
  apply (Hgen l [] s); [reflexivity | exact H0].
Qed.

(** A loop over distinct in-range indices whose iteration [idx] rewrites
    cell [idx] by [g idx]. *)
Lemma for_each_alter {A : Type} (g : Z -> A -> A) (body : Z -> list A -> result (list A))
    (l : list Z) (buf : list A) :
  NoDup l ->
  (forall idx, idx ∈ l -> 0 <= idx < Z.of_nat (length buf)) ->
  (forall idx b, idx ∈ l -> length b = length buf ->
     body idx b = Ok (alter (g idx) (Z.to_nat idx) b)) ->
  exists buf', for_each l body buf = Ok buf'
    /\ length buf' = length buf
    /\ forall m : nat,
         buf' !! m = if decide (Z.of_nat m ∈ l) then g (Z.of_nat m) <$> buf !! m
                     else buf !! m.
Proof.
  revert buf. induction l as [| a l IH]; intros buf Hnd Hrange Hbody.
  - exists buf. split; [reflexivity |]. split; [reflexivity |].
    intros m. destruct (decide (Z.of_nat m ∈ [])) as [Hin | _]; [| reflexivity].
    apply elem_of_nil in Hin. contradiction.
  - apply NoDup_cons in Hnd as [Ha Hnd].
    cbn. rewrite Hbody by (reflexivity || left). cbn.
    destruct (IH (alter (g a) (Z.to_nat a) buf)) as (buf' & Hrun & Hlen & Hget).
    + exact Hnd.
    + intros idx Hidx. rewrite length_alter. apply Hrange. right. exact Hidx.
    + intros idx b Hidx Hb. apply Hbody; [right; exact Hidx |].
      rewrite Hb. apply length_alter.
    + exists buf'. split; [exact Hrun |]. split; [rewrite Hlen; apply length_alter |].
      intros m. rewrite Hget.
      pose proof (Hrange a ltac:(left)) as Hra.
      destruct (decide (Z.of_nat m = a)) as [<- | Hne].
      * rewrite decide_False by exact Ha. rewrite decide_True by left.
        rewrite Nat2Z.id. apply list_lookup_alter_eq.
      * rewrite list_lookup_alter_ne by lia.
        destruct (decide (Z.of_nat m ∈ l)) as [Hin | Hnin].
        -- rewrite decide_True by (right; exact Hin). reflexivity.
        -- rewrite decide_False; [reflexivity |].
           intros Hin. apply elem_of_cons in Hin as [? | ?]; contradiction.
Qed.

(** ** The sweep driver *)

Module NBody_Comparison_Facts.
Import NBody_Comparison.

(** With two processes the single peer has rank 1, where the exchanged
    roles of the two scalars do not show. *)
Example sweep_rank_1_of_4 :
  exists a, sweep 4 1 (106 # 100) 1 = Some a /\ (a == 102 # 100)%Q.
Proof. eexists. split; [vm_compute; reflexivity | reflexivity]. Qed.

Example sweep_coordinator :
  exists a, sweep 4 1 (106 # 100) 0 = Some a /\ (a == 1)%Q.
Proof. eexists. split; [vm_compute; reflexivity | reflexivity]. Qed.

(** The two messages the coordinator sends to rank 2 of 4. *)
Example coordinator_messages_to_rank_2 :
  filter (fun m => msg_dest m = 2) (snd (coordinator 4 1 (106 # 100)))
  = [mk_message 0 2 0 1; mk_message 0 2 1 (6 # 300)].
Proof. vm_compute. reflexivity. Qed.

(** What the coordinator has sent: for each peer in turn, the minimum
    under tag 0 and then the step under tag 1. *)
Lemma coordinator_sends (num_proc : Z) (emin emax : Q) :
  snd (coordinator num_proc emin emax)
  = flat_map (fun i => [mk_message 0 i 0 emin;
                        mk_message 0 i 1 ((emax - emin) / inject_Z (num_proc - 1))%Q])
             (range 1 num_proc).
Proof.
  unfold coordinator. cbn [snd].
  set (step := ((emax - emin) / inject_Z (num_proc - 1))%Q).
  assert (forall l acc,
            fold_left (fun net i => MPI_Send step 0 i 1 (MPI_Send emin 0 i 0 net)) l acc
            = acc ++ flat_map (fun i => [mk_message 0 i 0 emin; mk_message 0 i 1 step]) l)
    as Hfold.
  { induction l as [| i l IH]; intros acc; cbn [fold_left flat_map].
    - rewrite app_nil_r. reflexivity.
    - rewrite IH. unfold MPI_Send. rewrite <- !app_assoc. reflexivity. }
  apply (Hfold _ []).
Qed.

(** The coordinator itself simulates with the minimum. *)
Lemma coordinator_expansion_factor (num_proc : Z) (emin emax : Q) :
  (fst (coordinator num_proc emin emax) == emin)%Q.
Proof. unfold coordinator. cbn [fst]. change (inject_Z 0) with 0%Q. ring. Qed.

(** A peer that is sent the pair [(a, b)] under tags [(0, 1)] computes
    [b + process_id * a]. *)
Lemma peer_receives (process_id : Z) (a b : Q) (l : list Z) :
  process_id ∈ l ->
  peer process_id (flat_map (fun i => [mk_message 0 i 0 a; mk_message 0 i 1 b]) l)
  = Some (b + inject_Z process_id * a)%Q.
Proof.
  intros Hin.
  assert (exists rest rest',
            MPI_Recv 0 process_id 0
              (flat_map (fun i => [mk_message 0 i 0 a; mk_message 0 i 1 b]) l)
            = Some (a, rest)
            /\ MPI_Recv 0 process_id 1 rest = Some (b, rest')) as (rest & rest' & H0 & H1).
  { induction l as [| i l IH]; [apply elem_of_nil in Hin; contradiction |].
    cbn [flat_map app]. destruct (decide (i = process_id)) as [-> | Hne].
    - eexists. eexists. cbn [MPI_Recv]. unfold matches.
      cbn [msg_source msg_dest msg_tag msg_payload].
      rewrite !Z.eqb_refl. cbn [andb]. split; [reflexivity |].
      cbn [MPI_Recv]. unfold matches.
      cbn [msg_source msg_dest msg_tag msg_payload].
      rewrite !Z.eqb_refl. reflexivity.
    - apply elem_of_cons in Hin as [Heq | Hin]; [congruence |].
      destruct (IH Hin) as (rest & rest' & H0 & H1).
      exists (mk_message 0 i 0 a :: mk_message 0 i 1 b :: rest).
      exists (mk_message 0 i 0 a :: mk_message 0 i 1 b :: rest').
      cbn [MPI_Recv]. unfold matches.
      cbn [msg_source msg_dest msg_tag msg_payload].
      assert ((i =? process_id) = false) as -> by (apply Z.eqb_neq; exact Hne).
      rewrite !Z.eqb_refl. cbn [andb]. rewrite H0, H1. split; reflexivity. }
  unfold peer. rewrite H0, H1. reflexivity.
Qed.

(** The expansion factor of every peer: the step plus the rank times
    the minimum. *)
Lemma sweep_peer (num_proc : Z) (emin emax : Q) (process_id : Z) :
  1 <= process_id < num_proc ->
  sweep num_proc emin emax process_id
  = Some ((emax - emin) / inject_Z (num_proc - 1) + inject_Z process_id * emin)%Q.
Proof.
  intros Hr. unfold sweep.
  assert ((process_id =? 0) = false) as -> by (apply Z.eqb_neq; lia).
  rewrite coordinator_sends. apply peer_receives. apply elem_of_range. exact Hr.
Qed.

(** It is the factor [a_min + rank * step] exactly for rank 1 or when the
    minimum and the step coincide. *)
Lemma sweep_peer_as_specified (num_proc : Z) (emin emax : Q) (process_id : Z) (a : Q) :
  1 <= process_id < num_proc ->
  sweep num_proc emin emax process_id = Some a ->
  let step := ((emax - emin) / inject_Z (num_proc - 1))%Q in
  (a == emin + inject_Z process_id * step)%Q <-> process_id = 1 \/ (emin == step)%Q.
Proof.
  intros Hr Ha step. rewrite sweep_peer in Ha by exact Hr. injection Ha as <-.
  fold step. split.
  - intros Heq. destruct (Z.eq_dec process_id 1) as [-> | Hne]; [left; reflexivity |].
    right. assert (1 < inject_Z process_id)%Q as Hgt.
    { change 1%Q with (inject_Z 1). rewrite <- Zlt_Qlt. lia. }
    nra.
  - intros [-> | Heq].
    + change (inject_Z 1) with 1%Q. ring.
    + rewrite Heq. ring.
Qed.

(** C1 (does not hold of the code): the coordinator sends the minimum
    expansion factor under tag 0 and the step under tag 1, but the peer
    stores the tag-0 message in [expansion_factor_step] and the tag-1
    message in [minimum_expansion_factor].  Rank 2 of a four-process sweep
    from 1.00 to 1.06 therefore simulates with 0.02 + 2 * 1.00 = 2.02, not
    with a_min + 2 * step = 1.04. *)
Theorem peer_rank_2_of_4_expansion_factor :
  exists a, sweep 4 1 (106 # 100) 2 = Some a
            /\ (a == 202 # 100)%Q
            /\ ~ (a == 1 + inject_Z 2 * (2 # 100))%Q.
Proof.
  eexists. split; [vm_compute; reflexivity |].
  split; [reflexivity | intros H; vm_compute in H; discriminate H].
Qed.

End NBody_Comparison_Facts.

(** ** Construction *)

Section Construction.

Variables (t_max t_step : Q) (collection : particle_group) (W : Q)
          (num_cells : Z) (e_factor : Q).

Lemma Simulation_new_rejects_t_max :
  (t_max <= 0)%Q ->
  exists what, Simulation_new t_max t_step collection W num_cells e_factor
               = ([], Fail (Thrown (invalid_argument what))).
Proof.
  intros H. apply Qle_bool_iff in H. unfold Simulation_new. rewrite H. eauto.
Qed.

Lemma Simulation_new_rejects_t_step :
  (0 < t_max)%Q -> (t_step <= 0)%Q ->
  exists what, Simulation_new t_max t_step collection W num_cells e_factor
               = ([], Fail (Thrown (invalid_argument what))).
Proof.
  intros H1 H2. apply Qle_bool_false in H1. apply Qle_bool_iff in H2.
  unfold Simulation_new. rewrite H1, H2. eauto.
Qed.

Lemma Simulation_new_rejects_W :
  (0 < t_max)%Q -> (0 < t_step)%Q -> (W <= 0)%Q ->
  exists what, Simulation_new t_max t_step collection W num_cells e_factor
               = ([], Fail (Thrown (invalid_argument what))).
Proof.
  intros H1 H2 H3. apply Qle_bool_false in H1, H2. apply Qle_bool_iff in H3.
  unfold Simulation_new. rewrite H1, H2, H3. eauto.
Qed.

Lemma Simulation_new_rejects_e_factor :
  (0 < t_max)%Q -> (0 < t_step)%Q -> (0 < W)%Q -> (e_factor <= 0)%Q ->
  exists what, Simulation_new t_max t_step collection W num_cells e_factor
               = ([], Fail (Thrown (invalid_argument what))).
Proof.
  intros H1 H2 H3 H4. apply Qle_bool_false in H1, H2, H3. apply Qle_bool_iff in H4.
  unfold Simulation_new. rewrite H1, H2, H3, H4. eauto.
Qed.

Lemma Simulation_new_rejects_large_num_cells :
  (0 < t_max)%Q -> (0 < t_step)%Q -> (0 < W)%Q -> (0 < e_factor)%Q ->
  INT_MAX < num_cells ->
  exists what, snd (Simulation_new t_max t_step collection W num_cells e_factor)
               = Fail (Thrown (overflow_error what)).
Proof.
  intros H1 H2 H3 H4 H5. apply Qle_bool_false in H1, H2, H3, H4.
  unfold Simulation_new. rewrite H1, H2, H3, H4.
  assert ((uint INT_MAX <? num_cells) = true) as ->.
  { apply Z.ltb_lt. rewrite uint_small; [exact H5 | unfold INT_MAX; lia]. }
  simpl. eauto.
Qed.

(** Everything else is accepted; the warnings are the only output. *)
Lemma Simulation_new_accepts :
  (0 < t_max)%Q -> (0 < t_step)%Q -> (0 < W)%Q -> (0 < e_factor)%Q ->
  num_cells <= INT_MAX ->
  Simulation_new t_max t_step collection W num_cells e_factor
  = ((if Qlt_bool e_factor 1 then [warn_contracting] else [])
       ++ (if 400 <? num_cells then [warn_grid_length] else []),
     Ok (mk_Simulation t_max t_step collection W num_cells e_factor
           (replicate (Z.to_nat (umul (umul num_cells num_cells) num_cells)) czero)
           (replicate (Z.to_nat (umul (umul num_cells num_cells) num_cells)) czero)
           (replicate (Z.to_nat (umul (umul num_cells num_cells) num_cells)) czero))).
Proof.
  intros H1 H2 H3 H4 H5. apply Qle_bool_false in H1, H2, H3, H4.
  unfold Simulation_new. rewrite H1, H2, H3, H4.
  assert ((uint INT_MAX <? num_cells) = false) as ->.
  { apply Z.ltb_ge. rewrite uint_small; [exact H5 | unfold INT_MAX; lia]. }
  reflexivity.
Qed.

End Construction.

(** The two advisory cases of the constructor. *)
Lemma Simulation_new_warns_contracting (t_max t_step : Q) (g : particle_group)
    (W : Q) (num_cells : Z) (a : Q) :
  (0 < t_max)%Q -> (0 < t_step)%Q -> (0 < W)%Q -> (0 < a)%Q -> (a < 1)%Q ->
  num_cells <= 400 ->
  exists s, Simulation_new t_max t_step g W num_cells a = ([warn_contracting], Ok s).
Proof.
  intros H1 H2 H3 H4 H5 H6.
  rewrite Simulation_new_accepts by (try assumption; unfold INT_MAX; lia).
  apply Qlt_bool_iff in H5. rewrite H5.
  assert ((400 <? num_cells) = false) as -> by (apply Z.ltb_ge; lia).
  eauto.
Qed.

Lemma Simulation_new_warns_grid_length (t_max t_step : Q) (g : particle_group)
    (W : Q) (num_cells : Z) (a : Q) :
  (0 < t_max)%Q -> (0 < t_step)%Q -> (0 < W)%Q -> (1 <= a)%Q ->
  400 < num_cells <= INT_MAX ->
  exists s, Simulation_new t_max t_step g W num_cells a = ([warn_grid_length], Ok s).
Proof.
  intros H1 H2 H3 H4 H5.
  rewrite Simulation_new_accepts by (try assumption; try lia; lra).
  assert (Qlt_bool a 1 = false) as ->.
  { destruct (Qlt_bool a 1) eqn:E; [apply Qlt_bool_iff in E; lra | reflexivity]. }
  assert ((400 <? num_cells) = true) as -> by (apply Z.ltb_lt; lia).
  eauto.
Qed.

(** C2 (does not hold of the code): the constructor tests [num_cells]
    only against [INT_MAX]; a cell count of zero passes every test, so
    with otherwise valid arguments the object is built, over empty
    buffers, where the specification demands a configuration failure. *)
Theorem Simulation_new_accepts_zero_cells (t_max t_step : Q) (g : particle_group)
    (W a : Q) :
  (0 < t_max)%Q -> (0 < t_step)%Q -> (0 < W)%Q -> (0 < a)%Q ->
  snd (Simulation_new t_max t_step g W 0 a)
  = Ok (mk_Simulation t_max t_step g W 0 a [] [] []).
Proof.
  intros H1 H2 H3 H4.
  rewrite Simulation_new_accepts by (try assumption; unfold INT_MAX; lia).
  reflexivity.
Qed.

Lemma Simulation_new_accepts_zero_cells_witness :
  snd (Simulation_new 1 (1 # 100) (mk_group 1 []) 1 0 1)
  = Ok (mk_Simulation 1 (1 # 100) (mk_group 1 []) 1 0 1 [] [] []).
Proof.
  apply (Simulation_new_accepts_zero_cells 1 (1 # 100) (mk_group 1 []) 1 1);
    reflexivity.
Defined.

(** ** Box expansion *)

(** C8: one box-expansion step multiplies the box width by the expansion
    factor, divides every velocity component of every particle by it and
    leaves every position and every other field as it was; for a positive
    width, the width grows strictly when the factor exceeds 1 and shrinks
    strictly when it is below 1. *)
Theorem box_expansion_effect (s : Simulation) :
  box_width (box_expansion s) = (box_width s * expansion_factor s)%Q
  /\ particles (particle_collection (box_expansion s))
     = map (fun p => mk_particle (position p)
                       (mk3 (c0 (velocity p) / expansion_factor s)
                            (c1 (velocity p) / expansion_factor s)
                            (c2 (velocity p) / expansion_factor s))%Q)
           (particles (particle_collection s))
  /\ map position (particles (particle_collection (box_expansion s)))
     = map position (particles (particle_collection s))
  /\ mass (particle_collection (box_expansion s)) = mass (particle_collection s)
  /\ time_max (box_expansion s) = time_max s
  /\ time_step (box_expansion s) = time_step s
  /\ number_of_cells (box_expansion s) = number_of_cells s
  /\ expansion_factor (box_expansion s) = expansion_factor s
  /\ density_buffer (box_expansion s) = density_buffer s
  /\ potential_buffer (box_expansion s) = potential_buffer s
  /\ k_space_buffer (box_expansion s) = k_space_buffer s
  /\ ((0 < box_width s)%Q -> (1 < expansion_factor s)%Q ->
      (box_width s < box_width (box_expansion s))%Q)
  /\ ((0 < box_width s)%Q -> (expansion_factor s < 1)%Q ->
      (box_width (box_expansion s) < box_width s)%Q).
Proof.
  destruct s as [tm ts [m ps] W n a d p k]. cbn.
  repeat split; try reflexivity.
  - induction ps as [| q ps IH]; [reflexivity |]. cbn. f_equal. exact IH.
  - intros HW Ha. nra.
  - intros HW Ha. nra.
Qed.

Lemma box_expansion_effect_witness :
  (box_width (mk_Simulation 1 1 (mk_group 1 []) 10 2 (102 # 100) [] [] [])
   < box_width (box_expansion
       (mk_Simulation 1 1 (mk_group 1 []) 10 2 (102 # 100) [] [] [])))%Q.
Proof.
  apply (box_expansion_effect
           (mk_Simulation 1 1 (mk_group 1 []) 10 2 (102 # 100) [] [] []));
    reflexivity.
Defined.

(** The positive width the constructor demands survives every expansion
    step with a positive factor. *)
Lemma box_expansion_width_positive (s : Simulation) :
  (0 < box_width s)%Q -> (0 < expansion_factor s)%Q ->
  (0 < box_width (box_expansion s))%Q.
Proof.
  intros HW Ha. destruct s as [tm ts [m ps] W n a d p k]. cbn in *. nra.
Qed.

(** ** Arrays *)

Lemma read_Ok {A : Type} (buf : list A) (idx : Z) (a : A) :
  read buf idx = Ok a <-> 0 <= idx /\ buf !! Z.to_nat idx = Some a.
Proof.
  unfold read. destruct (Z.ltb_spec idx 0) as [Hlt | Hge].
  - split; [discriminate | lia].
  - destruct (buf !! Z.to_nat idx) as [b |].
    + split; [intros [= ->]; auto | intros [_ [= ->]]; reflexivity].
    + split; [discriminate | intros [_ H]; discriminate H].
Qed.

Lemma read_in_range {A : Type} (buf : list A) (idx : Z) :
  0 <= idx < Z.of_nat (length buf) -> exists a, read buf idx = Ok a.
Proof.
  intros H. destruct (lookup_lt_is_Some_2 buf (Z.to_nat idx)) as [a Ha]; [lia |].
  exists a. apply read_Ok. split; [lia | exact Ha].
Qed.

Lemma write_in_range {A : Type} (buf : list A) (idx : Z) (f : A -> A) :
  0 <= idx < Z.of_nat (length buf) ->
  write buf idx f = Ok (alter f (Z.to_nat idx) buf).
Proof.
  intros [H1 H2]. unfold write.
  apply Z.leb_le in H1. apply Z.ltb_lt in H2. rewrite H1, H2. reflexivity.
Qed.

Lemma write_Ok {A : Type} (buf buf' : list A) (idx : Z) (f : A -> A) :
  write buf idx f = Ok buf' ->
  0 <= idx < Z.of_nat (length buf) /\ buf' = alter f (Z.to_nat idx) buf.
Proof.
  unfold write. destruct (Z.leb_spec 0 idx); destruct (Z.ltb_spec idx (Z.of_nat (length buf)));
    cbn; intros [= <-] || discriminate. split; [lia | reflexivity].
Qed.

Lemma make3_shape3 {A : Type} (n : Z) (a : A) : shape3 n (make3 n a).
Proof.
  unfold shape3, make3. split; [apply length_replicate |].
  apply Forall_replicate. split; [apply length_replicate |].
  apply Forall_replicate. apply length_replicate.
Qed.

Lemma read3_in_range {A : Type} (n : Z) (v : vector3 A) (i j k : Z) :
  shape3 n v -> 0 <= i < n -> 0 <= j < n -> 0 <= k < n ->
  exists a, read3 v i j k = Ok a.
Proof.
  intros [Hlen Hall] Hi Hj Hk. unfold read3.
  destruct (read_in_range v i) as [vi Hvi]; [lia |]. rewrite Hvi. cbn.
  apply read_Ok in Hvi as [_ Hvi].
  rewrite Forall_lookup in Hall. destruct (Hall _ _ Hvi) as [Hleni Halli].
  destruct (read_in_range vi j) as [vij Hvij]; [lia |]. rewrite Hvij. cbn.
  apply read_Ok in Hvij as [_ Hvij].
  rewrite Forall_lookup in Halli. pose proof (Halli _ _ Hvij) as Hlenij.
  apply read_in_range. lia.
Qed.

(** ** Nearest-grid-point cells *)

Lemma Qfloor_scaled_bounds (n : Z) (x : Q) :
  1 <= n -> in_unit_interval x -> 0 <= Qfloor (x * inject_Z n) < n.
Proof.
  intros Hn [H0 H1].
  assert (0 < inject_Z n)%Q as Hn'.
  { change 0%Q with (inject_Z 0). rewrite <- Zlt_Qlt. lia. }
  split.
  - change 0 with (Qfloor (inject_Z 0)) at 1. apply Qfloor_resp_le.
    change (inject_Z 0) with 0%Q. nra.
  - rewrite Zlt_Qlt. eapply Qle_lt_trans; [apply Qfloor_le |]. nra.
Qed.

Lemma cell_of_Qfloor (n : Z) (x : Q) :
  1 <= n < 2 ^ 32 -> in_unit_interval x -> cell_of n x = Qfloor (x * inject_Z n).
Proof.
  intros Hn Hx. pose proof (Qfloor_scaled_bounds n x (proj1 Hn) Hx) as Hb.
  unfold cell_of, uint_of_double, floor. rewrite Qtruncate_inject_Z.
  apply uint_small. lia.
Qed.

Lemma cell_of_bounds (n : Z) (x : Q) :
  1 <= n < 2 ^ 32 -> in_unit_interval x -> 0 <= cell_of n x < n.
Proof.
  intros Hn Hx. rewrite cell_of_Qfloor by assumption.
  apply Qfloor_scaled_bounds; [lia | exact Hx].
Qed.

(** The wrapped flat index never exceeds the exact one. *)
Lemma flat_index_le (n i j k : Z) :
  0 <= n -> 0 <= i -> 0 <= j -> 0 <= k ->
  0 <= flat_index n i j k <= k + n * (j + n * i).
Proof.
  intros Hn Hi Hj Hk. unfold flat_index, uadd, umul.
  pose proof (uint_le (n * i)) as H1. pose proof (uint_range (n * i)) as R1.
  pose proof (uint_le (j + uint (n * i))) as H2.
  pose proof (uint_range (j + uint (n * i))) as R2.
  pose proof (uint_le (n * uint (j + uint (n * i)))) as H3.
  pose proof (uint_range (n * uint (j + uint (n * i)))) as R3.
  pose proof (uint_le (k + uint (n * uint (j + uint (n * i))))) as H4.
  pose proof (uint_range (k + uint (n * uint (j + uint (n * i))))) as R4.
  split; [lia |]. nia.
Qed.

Lemma flat_index_lt (n i j k : Z) :
  0 <= i < n -> 0 <= j < n -> 0 <= k < n ->
  0 <= flat_index n i j k < n * n * n.
Proof.
  intros Hi Hj Hk.
  pose proof (flat_index_le n i j k ltac:(lia) ltac:(lia) ltac:(lia) ltac:(lia)) as H.
  split; [lia |]. nia.
Qed.

(** Without overflow of [n * n * n] the flat index is the exact one. *)
Lemma flat_index_exact (n i j k : Z) :
  n * n * n < 2 ^ 32 -> 0 <= i < n -> 0 <= j < n -> 0 <= k < n ->
  flat_index n i j k = k + n * (j + n * i).
Proof.
  intros Hn Hi Hj Hk. unfold flat_index, uadd, umul.
  assert (n * i < n * n) by nia.
  assert (n * n <= n * n * n) by nia.
  assert (j + n * i < n * n) by nia.
  assert (n * (j + n * i) <= n * n * n - n) by nia.
  rewrite (uint_small (n * i)) by nia.
  rewrite (uint_small (j + n * i)) by nia.
  rewrite (uint_small (n * (j + n * i))) by nia.
  apply uint_small. nia.
Qed.

(** C9: for a cell count in [1, INT_MAX], a particle inside the unit
    box has nearest-grid-point cell indices [floor (p * N_c)] in [0, N_c)
    on every axis, its flat index is below [N_c^3], and so the write of
    the depositor into a density buffer of [N_c^3] cells and the lookup of
    the integrator in a gradient field of [N_c x N_c x N_c] cells both
    stay in bounds. *)
Theorem ngp_cell_in_bounds (s : Simulation) (p : particle) :
  1 <= number_of_cells s <= INT_MAX ->
  in_unit_box p ->
  let n := number_of_cells s in
  let i := cell_of n (c0 (position p)) in
  let j := cell_of n (c1 (position p)) in
  let k := cell_of n (c2 (position p)) in
  (i = Qfloor (c0 (position p) * inject_Z n) /\ 0 <= i < n)
  /\ (j = Qfloor (c1 (position p) * inject_Z n) /\ 0 <= j < n)
  /\ (k = Qfloor (c2 (position p) * inject_Z n) /\ 0 <= k < n)
  /\ 0 <= flat_index n i j k < n * n * n
  /\ k + n * (j + n * i) < n * n * n
  /\ (forall density : list fftw_complex,
        Z.of_nat (length density) = n * n * n ->
        exists density', deposit s p density = Ok density')
  /\ (forall gradient : vector3 array3,
        shape3 n gradient -> exists g, read3 gradient i j k = Ok g).
Proof.
  intros Hn (Hx & Hy & Hz) n i j k.
  assert (1 <= n < 2 ^ 32) as Hn' by (unfold INT_MAX in Hn; subst n; lia).
  pose proof (cell_of_bounds n _ Hn' Hx) as Hi.
  pose proof (cell_of_bounds n _ Hn' Hy) as Hj.
  pose proof (cell_of_bounds n _ Hn' Hz) as Hk.
  fold i in Hi. fold j in Hj. fold k in Hk.
  pose proof (flat_index_lt n i j k Hi Hj Hk) as Hflat.
  repeat split; try lia; try (apply cell_of_Qfloor; assumption).
  - nia.
  - intros density Hlen. unfold deposit. fold n i j k.
    rewrite write_in_range by lia. eauto.
  - intros gradient Hshape. apply (read3_in_range n); assumption.
Qed.

Lemma ngp_cell_in_bounds_witness :
  0 <= flat_index 2 (cell_of 2 (1 # 2)) (cell_of 2 (3 # 4)) (cell_of 2 (1 # 4)) < 2 * 2 * 2.
Proof.
  apply (ngp_cell_in_bounds
           (mk_Simulation 1 1 (mk_group 1 []) 1 2 1 [] [] [])
           (mk_particle (mk3 (1 # 2) (3 # 4) (1 # 4)) (mk3 0 0 0))).
  - vm_compute. split; discriminate.
  - repeat split; vm_compute; congruence.
Defined.

(** ** The mesh invariant *)

Lemma umul_cube_exact (n : Z) :
  0 <= n -> n * n * n < 2 ^ 32 -> umul n n = n * n /\ umul (umul n n) n = n * n * n.
Proof.
  intros H0 H. unfold umul.
  assert (n * n <= n * n * n \/ n = 0) as [Hsq | ->] by nia; [| split; reflexivity].
  rewrite (uint_small (n * n)) by nia. split; [reflexivity |].
  apply uint_small. nia.
Qed.

(** The constructor accepts cell counts whose cube does not fit the
    [unsigned int] buffer length; the buffers then hold fewer than
    [N_c^3] cells (none at all for [N_c = 2048]) and every pass runs out
    of bounds.  The properties below are about meshes the constructor
    builds in full. *)
Example Simulation_new_2048_cells :
  snd (Simulation_new 1 (1 # 100) (mk_group 1 []) 1 2048 1)
  = Ok (mk_Simulation 1 (1 # 100) (mk_group 1 []) 1 2048 1 [] [] []).
Proof. reflexivity. Qed.

Example fill_density_buffer_2048_cells :
  fill_density_buffer (mk_Simulation 1 (1 # 100) (mk_group 1 []) 1 2048 1 [] [] [])
  = Fail OutOfBounds.
Proof. reflexivity. Qed.


(** ** The Poisson step *)

Lemma decode_bounds (n idx : Z) :
  1 <= n -> 0 <= idx < n * n * n ->
  0 <= idx / (n * n) < n /\ 0 <= (idx / n) mod n < n /\ 0 <= idx mod n < n.
Proof.
  intros Hn Hidx. split; [| split].
  - split; [apply Z.div_pos; nia |]. apply Z.div_lt_upper_bound; nia.
  - apply Z.mod_pos_bound. lia.
  - apply Z.mod_pos_bound. lia.
Qed.

(** The decoded coordinates recompose to the index. *)
Lemma decode_flat (n idx : Z) :
  1 <= n -> 0 <= idx ->
  idx mod n + n * ((idx / n) mod n + n * (idx / (n * n))) = idx.
Proof.
  intros Hn Hidx.
  rewrite <- Z.div_div by lia.
  pose proof (Z.div_mod idx n ltac:(lia)) as H1.
  pose proof (Z.div_mod (idx / n) n ltac:(lia)) as H2.
  nia.
Qed.

Lemma norm_factor_green (s : Simulation) (idx : Z) :
  mesh_ok s -> 1 <= idx < number_of_cells s * number_of_cells s * number_of_cells s ->
  let n := number_of_cells s in
  let i := idx / (n * n) in
  let j := (idx / n) mod n in
  let k := idx mod n in
  0 < i ^ 2 + j ^ 2 + k ^ 2
  /\ (norm_factor s idx == green_factor (box_width s) n i j k)%Q.
Proof.
  intros (Hn & Hfit & _) Hidx n i j k. fold n in Hn, Hfit, Hidx.
  destruct (decode_bounds n idx Hn ltac:(lia)) as (Hi & Hj & Hk).
  fold i in Hi. fold j in Hj. fold k in Hk.
  pose proof (decode_flat n idx Hn ltac:(lia)) as Hflat. fold i j k in Hflat.
  assert (0 < i ^ 2 + j ^ 2 + k ^ 2) as Hpos by nia.
  split; [exact Hpos |].
  destruct (umul_cube_exact n ltac:(lia) Hfit) as [Hsq _].
  unfold norm_factor, green_factor. fold n. rewrite Hsq. fold i j k.
  assert (uadd (uadd (umul i i) (umul j j)) (umul k k) = i ^ 2 + j ^ 2 + k ^ 2) as ->.
  { unfold uadd, umul.
    assert (i * i <= (n - 1) * (n - 1)) by (apply Z.mul_le_mono_nonneg; lia).
    assert (j * j <= (n - 1) * (n - 1)) by (apply Z.mul_le_mono_nonneg; lia).
    assert (k * k <= (n - 1) * (n - 1)) by (apply Z.mul_le_mono_nonneg; lia).
    assert (0 <= (n - 1) * (n - 1) * (n - 1))
      by (repeat apply Z.mul_nonneg_nonneg; lia).
    assert (3 * ((n - 1) * (n - 1)) < n * n * n) by lia.
    assert (0 <= i * i /\ 0 <= j * j /\ 0 <= k * k) as (? & ? & ?)
      by (repeat split; apply Z.mul_nonneg_nonneg; lia).
    rewrite (uint_small (i * i)) by lia.
    rewrite (uint_small (j * j)) by lia.
    rewrite (uint_small (k * k)) by lia.
    rewrite (uint_small (i * i + j * j)) by lia.
    rewrite uint_small by lia. ring. }
  replace (n ^ 3) with (n * n * n) by ring. rewrite !inject_Z_mult.
  apply Qmult_comp; [apply Qdiv_comp; [ring | reflexivity] |].
  apply Qdiv_comp; [reflexivity | ring].
Qed.

Section Poisson.

Variable dft : fftw_transform.

Lemma fftw_execute_ok (n : Z) (sign : fftw_sign) (input output : list fftw_complex) :
  0 <= n * n * n ->
  Z.of_nat (length input) = n * n * n ->
  Z.of_nat (length output) = n * n * n ->
  fftw_execute dft n sign input output
  = Ok (map (dft n sign input) (range 0 (n * n * n))).
Proof.
  intros H0 Hin Hout. unfold fftw_execute.
  rewrite Hin, Hout, Z.leb_refl. cbn.
  rewrite drop_ge by lia. rewrite app_nil_r. reflexivity.
Qed.

Lemma lookup_transformed (n : Z) (sign : fftw_sign) (input : list fftw_complex) (idx : Z) :
  0 <= idx < n * n * n ->
  map (dft n sign input) (range 0 (n * n * n)) !! Z.to_nat idx
  = Some (dft n sign input idx).
Proof.
  intros H. rewrite list_lookup_fmap, lookup_range by lia.
  cbn. f_equal. f_equal. lia.
Qed.

(** What one Poisson step leaves in the k-space buffer and in the
    rest of the object. *)
Lemma fill_potential_buffer_spec (s : Simulation) :
  mesh_ok s ->
  let n := number_of_cells s in
  let spectrum := dft n FFTW_FORWARD (density_buffer s) in
  exists s', fill_potential_buffer dft s = Ok s'
    /\ k_space_buffer s' !! 0%nat = Some (0%Q, 0%Q)
    /\ (forall idx, 1 <= idx < n * n * n ->
          k_space_buffer s' !! Z.to_nat idx
          = Some ((fst (spectrum idx) * norm_factor s idx)%Q,
                  (snd (spectrum idx) * norm_factor s idx)%Q))
    /\ potential_buffer s'
       = map (dft n FFTW_BACKWARD (k_space_buffer s')) (range 0 (n * n * n))
    /\ density_buffer s' = density_buffer s
    /\ particle_collection s' = particle_collection s
    /\ box_width s' = box_width s
    /\ number_of_cells s' = n
    /\ time_max s' = time_max s
    /\ time_step s' = time_step s
    /\ expansion_factor s' = expansion_factor s
    /\ mesh_ok s'.
Proof.
  intros Hok n spectrum. pose proof Hok as (Hn & Hfit & Hd & Hp & Hk).
  fold n in Hn, Hfit, Hd, Hp, Hk.
  destruct (umul_cube_exact n ltac:(lia) Hfit) as [Hsq Hcube].
  assert (0 < n * n * n) as Hpos by nia.
  unfold fill_potential_buffer. fold n. rewrite Hcube.
  rewrite fftw_execute_ok by (assumption || lia). cbn [bind].
  set (k0 := map (dft n FFTW_FORWARD (density_buffer s)) (range 0 (n * n * n))).
  assert (Z.of_nat (length k0) = n * n * n) as Hk0.
  { unfold k0. rewrite length_map, length_range. lia. }
  rewrite write_in_range by lia. cbn [bind].
  rewrite write_in_range by (rewrite length_alter; lia). cbn [bind].
  set (k2 := alter _ _ (alter _ _ k0)).
  assert (Z.of_nat (length k2) = n * n * n) as Hk2.
  { unfold k2. rewrite !length_alter. exact Hk0. }
  destruct (for_each_alter (A := fftw_complex)
              (fun idx c => ((fst c * norm_factor s idx)%Q, (snd c * norm_factor s idx)%Q))
              (scale_mode s) (range 1 (n * n * n)) k2)
    as (k3 & Hrun & Hlen & Hget).
  { apply NoDup_range. }
  { intros idx Hidx. apply elem_of_range in Hidx. lia. }
  { intros idx b Hidx Hb. apply elem_of_range in Hidx. unfold scale_mode.
    rewrite write_in_range by lia. cbn [bind].
    rewrite write_in_range by (rewrite length_alter; lia).
    rewrite list_alter_alter_eq. reflexivity. }
  rewrite Hrun. cbn [bind].
  rewrite fftw_execute_ok by lia. cbn [bind].
  eexists. split; [reflexivity |].
  split; [| split; [| split; [reflexivity | split; [reflexivity |
    split; [reflexivity | split; [reflexivity | split; [reflexivity |
    split; [reflexivity | split; [reflexivity | split; [reflexivity |]]]]]]]]]];
    cbn [set_potential set_k_space k_space_buffer].
  - rewrite (Hget 0%nat). rewrite decide_False.
    + unfold k2. rewrite !list_lookup_alter_eq. unfold k0.
      rewrite (lookup_transformed n _ _ 0) by lia. reflexivity.
    + intros Hin. apply elem_of_range in Hin. lia.
  - intros idx Hidx. rewrite Hget, Z2Nat.id by lia.
    rewrite decide_True by (apply elem_of_range; lia).
    unfold k2. rewrite !list_lookup_alter_ne by lia. unfold k0.
    rewrite lookup_transformed by lia. reflexivity.
  - unfold mesh_ok.
    cbn [set_potential set_k_space k_space_buffer potential_buffer density_buffer
         number_of_cells].
    fold n. rewrite length_map, length_range. repeat split; lia.
Qed.

(** C3: on a mesh that satisfies invariant 2, the Poisson step returns
    and, after the forward transform, every index [n] in [1, N_c^3),
    decoded row-major to [(i, j, k)], has both components of its k-space
    value multiplied by [-4 pi W^2 / (i^2 + j^2 + k^2) * 1 / (8 N_c^3)]
    over the raw integer triple, whose squared norm is positive. *)
Theorem poisson_scaling_raw_indices (s : Simulation) (idx : Z) :
  mesh_ok s ->
  1 <= idx < number_of_cells s * number_of_cells s * number_of_cells s ->
  let n := number_of_cells s in
  let i := idx / (n * n) in
  let j := (idx / n) mod n in
  let k := idx mod n in
  let before := dft n FFTW_FORWARD (density_buffer s) idx in
  exists s' after,
    fill_potential_buffer dft s = Ok s'
    /\ k_space_buffer s' !! Z.to_nat idx = Some after
    /\ (fst after == fst before * green_factor (box_width s) n i j k)%Q
    /\ (snd after == snd before * green_factor (box_width s) n i j k)%Q
    /\ 0 < i ^ 2 + j ^ 2 + k ^ 2
    /\ idx = k + n * (j + n * i).
Proof.
  intros Hok Hidx n i j k before.
  destruct (fill_potential_buffer_spec s Hok) as (s' & Hrun & _ & Hget & _).
  destruct (norm_factor_green s idx Hok Hidx) as [Hpos Heq].
  fold n i j k in Hpos, Heq.
  exists s'. eexists. split; [exact Hrun |].
  split; [apply Hget; exact Hidx |]. cbn [fst snd]. fold n before.
  split; [rewrite Heq; reflexivity |].
  split; [rewrite Heq; reflexivity |].
  split; [exact Hpos |].
  symmetry. apply decode_flat; [apply Hok | lia].
Qed.

(** C6: on a mesh that satisfies invariant 2, the Poisson step returns
    and leaves [0 + 0i] at index 0 of the k-space buffer. *)
Theorem poisson_dc_bin_zero (s : Simulation) :
  mesh_ok s ->
  exists s', fill_potential_buffer dft s = Ok s'
             /\ k_space_buffer s' !! 0%nat = Some (0%Q, 0%Q).
Proof.
  intros Hok.
  destruct (fill_potential_buffer_spec s Hok) as (s' & Hrun & Hdc & _).
  exists s'. split; assumption.
Qed.

End Poisson.

Lemma sample_simulation_mesh_ok : mesh_ok sample_simulation.
Proof. repeat split; vm_compute; reflexivity || discriminate. Qed.

Lemma poisson_scaling_raw_indices_witness :
  let before := copy_transform 3 FFTW_FORWARD (density_buffer sample_simulation) 5 in
  let G := green_factor 3 3 0 1 2 in
  exists s' after,
    fill_potential_buffer copy_transform sample_simulation = Ok s'
    /\ k_space_buffer s' !! 5%nat = Some after
    /\ (fst after == fst before * G)%Q
    /\ (snd after == snd before * G)%Q
    /\ 0 < 0 ^ 2 + 1 ^ 2 + 2 ^ 2
    /\ 5 = 2 + 3 * (1 + 3 * 0).
Proof.
  apply (poisson_scaling_raw_indices copy_transform sample_simulation 5).
  - exact sample_simulation_mesh_ok.
  - cbn. lia.
Defined.

Lemma poisson_dc_bin_zero_witness :
  exists s', fill_potential_buffer copy_transform sample_simulation = Ok s'
             /\ k_space_buffer s' !! 0%nat = Some (0%Q, 0%Q).
Proof.
  apply (poisson_dc_bin_zero copy_transform sample_simulation).
  exact sample_simulation_mesh_ok.
Defined.

(** ** Density deposition *)

Lemma sum_re_alter (buf : list fftw_complex) (idx : nat) (d : Q) :
  (idx < length buf)%nat ->
  (sum_re (alter (fun c => ((fst c + d)%Q, snd c)) idx buf) == sum_re buf + d)%Q.
Proof.
  revert idx. induction buf as [| c buf IH]; intros idx Hidx; cbn in Hidx; [lia |].
  destruct idx as [| idx].
  - change ((fst c + d) + sum_re buf == (fst c + sum_re buf) + d)%Q. ring.
  - change (fst c + sum_re (alter (fun c => ((fst c + d)%Q, snd c)) idx buf)
            == (fst c + sum_re buf) + d)%Q.
    rewrite IH by lia. ring.
Qed.

Lemma sum_re_replicate_zero (m : nat) : (sum_re (replicate m czero) == 0)%Q.
Proof.
  induction m as [| m IH]; [reflexivity |].
  change (0 + sum_re (replicate m czero) == 0)%Q. rewrite IH. reflexivity.
Qed.

Lemma inject_Z_of_nat_S (m : nat) :
  (inject_Z (Z.of_nat (S m)) == inject_Z (Z.of_nat m) + 1)%Q.
Proof. rewrite Nat2Z.inj_succ. unfold Z.succ. rewrite inject_Z_plus. reflexivity. Qed.

Lemma deposit_index (s : Simulation) (p : particle) :
  mesh_ok s -> in_unit_box p ->
  let n := number_of_cells s in
  flat_index n (cell_of n (c0 (position p))) (cell_of n (c1 (position p)))
    (cell_of n (c2 (position p))) = ngp_index n p
  /\ 0 <= ngp_index n p < n * n * n.
Proof.
  intros (Hn & Hfit & _) (Hx & Hy & Hz) n. fold n in Hn, Hfit.
  assert (1 <= n < 2 ^ 32) as Hn' by nia.
  pose proof (cell_of_bounds n _ Hn' Hx) as Hi.
  pose proof (cell_of_bounds n _ Hn' Hy) as Hj.
  pose proof (cell_of_bounds n _ Hn' Hz) as Hk.
  pose proof (flat_index_lt n _ _ _ Hi Hj Hk) as Hlt.
  rewrite flat_index_exact in * by assumption.
  rewrite !cell_of_Qfloor in * by assumption.
  split; [reflexivity | exact Hlt].
Qed.

Lemma deposit_alter (s : Simulation) (p : particle) (buf : list fftw_complex) :
  mesh_ok s -> in_unit_box p ->
  Z.of_nat (length buf) = number_of_cells s * number_of_cells s * number_of_cells s ->
  deposit s p buf
  = Ok (alter (fun c => ((fst c + single_density s)%Q, snd c))
          (Z.to_nat (ngp_index (number_of_cells s) p)) buf).
Proof.
  intros Hok Hp Hlen. destruct (deposit_index s p Hok Hp) as [Hidx Hrange].
  unfold deposit. rewrite Hidx. rewrite write_in_range by lia. reflexivity.
Qed.

(** The deposition loop, cell by cell. *)
Lemma deposit_loop (s : Simulation) (ps : list particle) :
  mesh_ok s -> Forall in_unit_box ps ->
  forall buf : list fftw_complex,
  Z.of_nat (length buf) = number_of_cells s * number_of_cells s * number_of_cells s ->
  exists buf', for_each ps (deposit s) buf = Ok buf'
    /\ length buf' = length buf
    /\ (sum_re buf' == sum_re buf + inject_Z (Z.of_nat (length ps)) * single_density s)%Q
    /\ (forall (m : nat) (c : fftw_complex), buf !! m = Some c ->
          exists c', buf' !! m = Some c'
            /\ (fst c' == fst c + inject_Z (Z.of_nat (hits (number_of_cells s) (Z.of_nat m) ps))
                                  * single_density s)%Q
            /\ snd c' = snd c).
Proof.
  intros Hok Hps. induction Hps as [| p ps Hp Hps IH]; intros buf Hlen.
  - exists buf. split; [reflexivity |]. split; [reflexivity |].
    split; [cbn; ring |]. intros m c Hc. exists c. split; [exact Hc |].
    split; [cbn; ring | reflexivity].
  - destruct (deposit_index s p Hok Hp) as [_ Hrange].
    cbn [for_each]. rewrite deposit_alter by assumption. cbn [bind].
    set (idx := Z.to_nat (ngp_index (number_of_cells s) p)).
    set (buf1 := alter _ idx buf).
    destruct (IH buf1) as (buf' & Hrun & Hlen' & Hsum & Hcells).
    { unfold buf1. rewrite length_alter. exact Hlen. }
    exists buf'. split; [exact Hrun |].
    split; [rewrite Hlen'; unfold buf1; apply length_alter |].
    split.
    + rewrite Hsum. unfold buf1. rewrite sum_re_alter by (unfold idx; lia).
      cbn [length]. rewrite inject_Z_of_nat_S. ring.
    + intros m c Hc. unfold hits. destruct (decide (m = idx)) as [-> | Hne].
      * destruct (Hcells idx ((fst c + single_density s)%Q, snd c)) as (c' & Hc' & Hre & Him).
        { unfold buf1. rewrite list_lookup_alter_eq, Hc. reflexivity. }
        exists c'. split; [exact Hc' |]. split; [| exact Him].
        rewrite Hre. cbn [fst]. rewrite filter_cons_True by (unfold idx; lia).
        cbn [length]. rewrite inject_Z_of_nat_S. unfold hits. ring.
      * destruct (Hcells m c) as (c' & Hc' & Hre & Him).
        { unfold buf1. rewrite list_lookup_alter_ne by congruence. exact Hc. }
        exists c'. split; [exact Hc' |]. split; [| exact Him].
        rewrite Hre. rewrite filter_cons_False by (unfold idx in Hne; lia).
        reflexivity.
Qed.

Lemma memset_zero_all (n : Z) (buf : list fftw_complex) :
  0 <= n -> n * n * n < 2 ^ 32 -> Z.of_nat (length buf) = n * n * n ->
  memset_zero buf (size_t (size_t (size_t (sizeof_fftw_complex * n) * n) * n))
  = Ok (replicate (Z.to_nat (n * n * n)) czero).
Proof.
  intros H0 Hfit Hlen. unfold size_t, sizeof_fftw_complex.
  assert (n = 0 \/ (n <= n * n /\ n * n <= n * n * n)) as [-> | [H1 H2]] by nia.
  - destruct buf; [reflexivity | discriminate Hlen].
  - rewrite (Z.mod_small (16 * n)) by lia.
    rewrite (Z.mod_small (16 * n * n)) by nia.
    rewrite (Z.mod_small (16 * n * n * n)) by nia.
    unfold memset_zero, sizeof_fftw_complex. rewrite Hlen.
    replace (16 * n * n * n) with (n * n * n * 16) by ring.
    rewrite Z.div_mul by lia.
    replace (n * n * n * 16 <=? 16 * (n * n * n)) with true
      by (symmetry; apply Z.leb_le; lia).
    rewrite drop_ge by lia. rewrite app_nil_r. reflexivity.
Qed.

(** What one deposition leaves in the density buffer. *)
Lemma fill_density_buffer_spec (s : Simulation) :
  mesh_ok s -> Forall in_unit_box (particles (particle_collection s)) ->
  let n := number_of_cells s in
  exists density, fill_density_buffer s = Ok (set_density s density)
    /\ Z.of_nat (length density) = n * n * n
    /\ (sum_re density
        == inject_Z (get_num_particles (particle_collection s)) * single_density s)%Q
    /\ (forall m : Z, 0 <= m < n * n * n ->
          exists c, density !! Z.to_nat m = Some c
            /\ (fst c == inject_Z (Z.of_nat (hits n m (particles (particle_collection s))))
                         * single_density s)%Q
            /\ snd c = 0%Q).
Proof.
  intros Hok Hps n. pose proof Hok as (Hn & Hfit & Hd & _). fold n in Hn, Hfit, Hd.
  unfold fill_density_buffer. fold n.
  rewrite memset_zero_all by (assumption || lia). cbn [bind].
  destruct (deposit_loop s _ Hok Hps (replicate (Z.to_nat (n * n * n)) czero))
    as (density & Hrun & Hlen & Hsum & Hcells).
  { rewrite length_replicate. fold n. lia. }
  rewrite Hrun. cbn [bind]. exists density. split; [reflexivity |].
  rewrite length_replicate in Hlen. split; [lia |]. split.
  - rewrite Hsum, sum_re_replicate_zero. unfold get_num_particles. ring.
  - intros m Hm. destruct (Hcells (Z.to_nat m) czero) as (c & Hc & Hre & Him).
    { apply lookup_replicate_2. lia. }
    exists c. split; [exact Hc |]. rewrite Z2Nat.id in Hre by lia. fold n in Hre.
    split; [rewrite Hre; cbn; ring | exact Him].
Qed.

Lemma single_density_spec (s : Simulation) :
  (single_density s
   == mass (particle_collection s) / (box_width s / inject_Z (number_of_cells s)) ^ 3)%Q.
Proof.
  unfold single_density. apply Qdiv_comp; [reflexivity | ring].
Qed.

(** C4: on a mesh that satisfies invariant 2 and for particles inside
    the unit box, deposition returns and leaves a density buffer whose
    real parts sum to [N_p * mass / (W / N_c)^3], whose imaginary parts are
    all zero, and in which every cell holds [mass / (W / N_c)^3] times the
    number of particles whose nearest-grid-point cell [floor (p * N_c)] it
    is. *)
Theorem deposition_conserves_mass (s : Simulation) :
  mesh_ok s -> Forall in_unit_box (particles (particle_collection s)) ->
  let n := number_of_cells s in
  let g := particle_collection s in
  exists s', fill_density_buffer s = Ok s'
    /\ (sum_re (density_buffer s')
        == inject_Z (get_num_particles g) * mass g / (box_width s / inject_Z n) ^ 3)%Q
    /\ Forall (fun c => snd c = 0%Q) (density_buffer s')
    /\ (forall m : Z, 0 <= m < n * n * n ->
          exists c, density_buffer s' !! Z.to_nat m = Some c
            /\ (fst c == inject_Z (Z.of_nat (hits n m (particles g)))
                         * (mass g / (box_width s / inject_Z n) ^ 3))%Q)
    /\ Z.of_nat (length (density_buffer s')) = n * n * n
    /\ particle_collection s' = g.
Proof.
  intros Hok Hps n g.
  destruct (fill_density_buffer_spec s Hok Hps) as (density & Hrun & Hlen & Hsum & Hcells).
  fold n in Hlen, Hcells. fold g in Hsum, Hcells.
  exists (set_density s density). split; [exact Hrun |].
  cbn [set_density density_buffer particle_collection].
  split; [| split; [| split; [| split; [exact Hlen | reflexivity]]]].
  - rewrite Hsum, single_density_spec. fold n g. unfold Qdiv. ring.
  - apply Forall_lookup. intros m c Hc.
    assert (m < length density)%nat as Hm by (eapply lookup_lt_Some; exact Hc).
    destruct (Hcells (Z.of_nat m)) as (c' & Hc' & _ & Him); [lia |].
    rewrite Nat2Z.id in Hc'. congruence.
  - intros m Hm. destruct (Hcells m Hm) as (c & Hc & Hre & _).
    exists c. split; [exact Hc |]. rewrite Hre, single_density_spec. reflexivity.
Qed.

(** The two particles of the sample fall into cells 15 and 7. *)
Example fill_density_buffer_sample :
  exists s', fill_density_buffer sample_simulation = Ok s'
    /\ density_buffer s' !! 15%nat = Some ((135 # 54)%Q, 0%Q)
    /\ density_buffer s' !! 7%nat = Some ((135 # 54)%Q, 0%Q)
    /\ density_buffer s' !! 0%nat = Some (0%Q, 0%Q).
Proof. eexists. repeat split; vm_compute; reflexivity. Qed.

Lemma deposition_conserves_mass_witness :
  exists s', fill_density_buffer sample_simulation = Ok s'
    /\ (sum_re (density_buffer s') == inject_Z 2 * (5 # 2) / (3 / inject_Z 3) ^ 3)%Q.
Proof.
  destruct (deposition_conserves_mass sample_simulation) as (s' & Hrun & Hsum & _).
  - exact sample_simulation_mesh_ok.
  - repeat constructor; cbn; discriminate.
  - exists s'. split; [exact Hrun | exact Hsum].
Defined.

(** ** Nested vectors *)

Lemma read3_of_get3 {A : Type} (v : vector3 A) (i j k : Z) (a : A) :
  0 <= i -> 0 <= j -> 0 <= k -> get3 v i j k = Some a -> read3 v i j k = Ok a.
Proof.
  intros Hi Hj Hk. unfold get3, read3.
  destruct (v !! Z.to_nat i) as [vi |] eqn:Evi; [| discriminate].
  destruct (vi !! Z.to_nat j) as [vij |] eqn:Evij; [| discriminate].
  intros Ea.
  rewrite (proj2 (read_Ok v i vi)) by auto. cbn [bind].
  rewrite (proj2 (read_Ok vi j vij)) by auto. cbn [bind].
  apply read_Ok. auto.
Qed.

Lemma get3_of_read3 {A : Type} (v : vector3 A) (i j k : Z) (a : A) :
  read3 v i j k = Ok a -> get3 v i j k = Some a.
Proof.
  unfold get3, read3.
  destruct (read v i) as [vi | e] eqn:Evi; [| discriminate].
  apply read_Ok in Evi as [_ ->]. cbn [bind].
  destruct (read vi j) as [vij | e] eqn:Evij; [| discriminate].
  apply read_Ok in Evij as [_ ->]. cbn [bind].
  intros Ea. apply read_Ok in Ea as [_ Ea]. exact Ea.
Qed.

Lemma shape3_get3 {A : Type} (n : Z) (v : vector3 A) (i j k : Z) :
  shape3 n v -> 0 <= i < n -> 0 <= j < n -> 0 <= k < n ->
  exists a, get3 v i j k = Some a.
Proof.
  intros Hs Hi Hj Hk. destruct (read3_in_range n v i j k Hs Hi Hj Hk) as [a Ha].
  exists a. apply get3_of_read3. exact Ha.
Qed.

Lemma write3_spec {A : Type} (n : Z) (v : vector3 A) (i j k : Z) (f : A -> A) :
  shape3 n v -> 0 <= i < n -> 0 <= j < n -> 0 <= k < n ->
  exists v', write3 v i j k f = Ok v'
    /\ shape3 n v'
    /\ get3 v' i j k = f <$> get3 v i j k
    /\ forall i' j' k', 0 <= i' -> 0 <= j' -> 0 <= k' ->
         (i', j', k') <> (i, j, k) -> get3 v' i' j' k' = get3 v i' j' k'.
Proof.
  intros [Hlen Hall] Hi Hj Hk.
  destruct (lookup_lt_is_Some_2 v (Z.to_nat i)) as [vi Hvi]; [lia |].
  pose proof Hall as Hall'. rewrite Forall_lookup in Hall'.
  destruct (Hall' _ _ Hvi) as [Hleni Halli].
  destruct (lookup_lt_is_Some_2 vi (Z.to_nat j)) as [vij Hvij]; [lia |].
  pose proof Halli as Halli'. rewrite Forall_lookup in Halli'.
  pose proof (Halli' _ _ Hvij) as Hlenij.
  unfold write3.
  rewrite (proj2 (read_Ok v i vi)) by (split; [lia | exact Hvi]). cbn [bind].
  rewrite (proj2 (read_Ok vi j vij)) by (split; [lia | exact Hvij]). cbn [bind].
  rewrite write_in_range by lia. cbn [bind].
  rewrite write_in_range by lia. cbn [bind].
  rewrite write_in_range by lia.
  set (vij' := alter f (Z.to_nat k) vij).
  set (vi' := alter (fun _ => vij') (Z.to_nat j) vi).
  eexists. split; [reflexivity |].
  assert (length vij' = Z.to_nat n) as Hlenij'
    by (unfold vij'; rewrite length_alter; exact Hlenij).
  assert (length vi' = Z.to_nat n /\ Forall (fun vij => length vij = Z.to_nat n) vi')
    as Hvi'.
  { unfold vi'. rewrite length_alter. split; [exact Hleni |].
    apply Forall_alter; [exact Halli | intros; exact Hlenij']. }
  split; [| split].
  - split; [rewrite length_alter; exact Hlen |].
    apply Forall_alter; [exact Hall | intros; exact Hvi'].
  - unfold get3. rewrite list_lookup_alter_eq, Hvi. cbn.
    unfold vi'. rewrite list_lookup_alter_eq, Hvij. cbn.
    unfold vij'. apply list_lookup_alter_eq.
  - intros i' j' k' Hi' Hj' Hk' Hne. unfold get3.
    destruct (decide (i' = i)) as [-> | Hnei].
    + rewrite list_lookup_alter_eq, Hvi. cbn.
      destruct (decide (j' = j)) as [-> | Hnej].
      * unfold vi'. rewrite list_lookup_alter_eq, Hvij. cbn.
        unfold vij'. apply list_lookup_alter_ne. intros Heq.
        apply Hne. f_equal. lia.
      * unfold vi'. rewrite list_lookup_alter_ne by lia. reflexivity.
    + rewrite list_lookup_alter_ne by lia. reflexivity.
Qed.

(** ** The gradient *)

Lemma while_loop_exit {S : Type} (fuel : nat) (cond : S -> bool) (body : S -> S) (s : S) :
  cond s = false -> while_loop fuel cond body s = Ok s.
Proof. intros H. destruct fuel; cbn; rewrite H; reflexivity. Qed.

Lemma while_loop_step {S : Type} (fuel : nat) (cond : S -> bool) (body : S -> S) (s : S) :
  cond s = true ->
  while_loop (Datatypes.S fuel) cond body s = while_loop fuel cond body (body s).
Proof. intros H. cbn. rewrite H. reflexivity. Qed.

Lemma wrap_high_spec (fuel : nat) (n x : Z) :
  (1 <= fuel)%nat -> 1 <= n <= INT_MAX -> 0 <= x <= n ->
  wrap_high fuel n (to_int x) = Ok (x mod n).
Proof.
  intros Hfuel Hn Hx. unfold INT_MAX in Hn. unfold wrap_high.
  rewrite to_int_small by lia.
  destruct fuel as [| fuel]; [lia |].
  destruct (Z.eq_dec x n) as [-> | Hne].
  - rewrite while_loop_step by (rewrite uint_small by lia; apply Z.leb_refl).
    unfold usub. rewrite (uint_small n) by lia. rewrite Z.sub_diag.
    change (to_int (uint 0)) with 0.
    rewrite while_loop_exit by (change (uint 0) with 0; apply Z.leb_gt; lia).
    rewrite Z_mod_same_full. reflexivity.
  - rewrite while_loop_exit by (rewrite uint_small by lia; apply Z.leb_gt; lia).
    rewrite Z.mod_small by lia. reflexivity.
Qed.

Lemma wrap_low_spec (fuel : nat) (n x : Z) :
  (1 <= fuel)%nat -> 1 <= n <= INT_MAX -> -1 <= x < n ->
  wrap_low fuel n (to_int x) = Ok (x mod n).
Proof.
  intros Hfuel Hn Hx. unfold INT_MAX in Hn. unfold wrap_low.
  rewrite to_int_small by lia.
  destruct fuel as [| fuel]; [lia |].
  destruct (Z.eq_dec x (-1)) as [-> | Hne].
  - rewrite while_loop_step by reflexivity.
    assert (to_int (uadd (uint (-1)) n) = n - 1) as ->.
    { unfold uadd. change (uint (-1)) with (2 ^ 32 - 1). unfold uint.
      replace (2 ^ 32 - 1 + n) with (n - 1 + 1 * 2 ^ 32) by ring.
      rewrite Z.mod_add by lia. rewrite Z.mod_small by lia.
      apply to_int_small. lia. }
    rewrite while_loop_exit by (apply Z.ltb_ge; lia).
    f_equal. symmetry. replace (-1) with (n - 1 + (-1) * n) by ring.
    rewrite Z.mod_add by lia. apply Z.mod_small. lia.
  - rewrite while_loop_exit by (apply Z.ltb_ge; lia).
    rewrite Z.mod_small by lia. reflexivity.
Qed.

Lemma read_phi (n : Z) (potential : list fftw_complex) (i j k : Z) :
  n * n * n < 2 ^ 32 -> Z.of_nat (length potential) = n * n * n ->
  0 <= i < n -> 0 <= j < n -> 0 <= k < n ->
  exists c, read potential (flat_index n (uint i) (uint j) (uint k)) = Ok c
            /\ fst c = phi n potential i j k.
Proof.
  intros Hfit Hlen Hi Hj Hk.
  assert (n <= n * n * n) by nia.
  rewrite !uint_small by lia.
  pose proof (flat_index_lt n i j k Hi Hj Hk) as Hlt.
  rewrite flat_index_exact in * by assumption.
  destruct (read_in_range potential (k + n * (j + n * i))) as [c Hc]; [lia |].
  exists c. split; [exact Hc |]. apply read_Ok in Hc as [_ Hc].
  unfold phi. rewrite Hc. reflexivity.
Qed.

Lemma gradient_cell_spec (fuel : nat) (s : Simulation) (potential : list fftw_complex)
    (i j k : Z) (gradient : vector3 array3) :
  mesh_ok s -> (1 <= fuel)%nat ->
  let n := number_of_cells s in
  Z.of_nat (length potential) = n * n * n ->
  shape3 n gradient -> 0 <= i < n -> 0 <= j < n -> 0 <= k < n ->
  exists gradient', gradient_cell fuel s potential i j k gradient = Ok gradient'
    /\ shape3 n gradient'
    /\ get3 gradient' i j k = Some (central_difference s potential i j k)
    /\ forall i' j' k', 0 <= i' -> 0 <= j' -> 0 <= k' ->
         (i', j', k') <> (i, j, k) -> get3 gradient' i' j' k' = get3 gradient i' j' k'.
Proof.
  intros (Hn & Hfit & _) Hfuel n Hlen Hshape Hi Hj Hk. fold n in Hn, Hfit.
  assert (1 <= n <= INT_MAX) as Hn' by (unfold INT_MAX; nia).
  unfold gradient_cell. fold n.
  rewrite !wrap_high_spec, !wrap_low_spec by (assumption || lia). cbn [bind].
  pose proof (Z.mod_pos_bound (i + 1) n ltac:(lia)) as Hih.
  pose proof (Z.mod_pos_bound (i - 1) n ltac:(lia)) as Hil.
  pose proof (Z.mod_pos_bound (j + 1) n ltac:(lia)) as Hjh.
  pose proof (Z.mod_pos_bound (j - 1) n ltac:(lia)) as Hjl.
  pose proof (Z.mod_pos_bound (k + 1) n ltac:(lia)) as Hkh.
  pose proof (Z.mod_pos_bound (k - 1) n ltac:(lia)) as Hkl.
  destruct (read_phi n potential _ j k Hfit Hlen Hih Hj Hk) as (xh & -> & Hxh).
  destruct (read_phi n potential _ j k Hfit Hlen Hil Hj Hk) as (xl & -> & Hxl).
  cbn [bind].
  destruct (write3_spec n gradient i j k
              (fun g => mk3 ((fst xh - fst xl) / (2 * (box_width s / inject_Z n)))%Q
                            (c1 g) (c2 g)) Hshape Hi Hj Hk)
    as (g1 & -> & Hs1 & Hg1 & Ho1).
  cbn [bind].
  destruct (read_phi n potential i _ k Hfit Hlen Hi Hjh Hk) as (yh & -> & Hyh).
  destruct (read_phi n potential i _ k Hfit Hlen Hi Hjl Hk) as (yl & -> & Hyl).
  cbn [bind].
  destruct (write3_spec n g1 i j k
              (fun g => mk3 (c0 g) ((fst yh - fst yl) / (2 * (box_width s / inject_Z n)))%Q
                            (c2 g)) Hs1 Hi Hj Hk)
    as (g2 & -> & Hs2 & Hg2 & Ho2).
  cbn [bind].
  destruct (read_phi n potential i j _ Hfit Hlen Hi Hj Hkh) as (zh & -> & Hzh).
  destruct (read_phi n potential i j _ Hfit Hlen Hi Hj Hkl) as (zl & -> & Hzl).
  cbn [bind].
  destruct (write3_spec n g2 i j k
              (fun g => mk3 (c0 g) (c1 g)
                            ((fst zh - fst zl) / (2 * (box_width s / inject_Z n)))%Q)
              Hs2 Hi Hj Hk)
    as (g3 & -> & Hs3 & Hg3 & Ho3).
  exists g3. split; [reflexivity |]. split; [exact Hs3 |]. split.
  - destruct (shape3_get3 n gradient i j k Hshape Hi Hj Hk) as [a Ha].
    rewrite Hg3, Hg2, Hg1, Ha. cbn. unfold central_difference. fold n.
    rewrite Hxh, Hxl, Hyh, Hyl, Hzh, Hzl. reflexivity.
  - intros i' j' k' Hi' Hj' Hk' Hne.
    rewrite Ho3, Ho2, Ho1 by assumption. reflexivity.
Qed.

Lemma for_each_app {A S : Type} (l1 l2 : list A) (body : A -> S -> result S) (s : S) :
  for_each (l1 ++ l2) body s = do s' <~ for_each l1 body s; for_each l2 body s'.
Proof.
  revert s. induction l1 as [| a l1 IH]; intros s; [reflexivity |].
  cbn. destruct (body a s) as [s1 | e]; cbn; [apply IH | reflexivity].
Qed.

Lemma for_each_map {A B S : Type} (f : A -> B) (l : list A)
    (body : B -> S -> result S) (s : S) :
  for_each (map f l) body s = for_each l (fun a => body (f a)) s.
Proof.
  revert s. induction l as [| a l IH]; intros s; [reflexivity |].
  cbn. destruct (body (f a) s) as [s1 | e]; cbn; [apply IH | reflexivity].
Qed.

Lemma for_each_ext {A S : Type} (l : list A) (body1 body2 : A -> S -> result S) (s : S) :
  (forall a s1, body1 a s1 = body2 a s1) -> for_each l body1 s = for_each l body2 s.
Proof.
  intros H. revert s. induction l as [| a l IH]; intros s; [reflexivity |].
  cbn. rewrite H. destruct (body2 a s) as [s1 | e]; cbn; [apply IH | reflexivity].
Qed.

Lemma for_each_flat_map {A B S : Type} (f : A -> list B) (l : list A)
    (body : B -> S -> result S) (s : S) :
  for_each (flat_map f l) body s = for_each l (fun a => for_each (f a) body) s.
Proof.
  revert s. induction l as [| a l IH]; intros s; [reflexivity |].
  cbn [flat_map for_each]. rewrite for_each_app.
  destruct (for_each (f a) body s) as [s1 | e]; cbn; [apply IH | reflexivity].
Qed.

Lemma for_each_cells {S : Type} (n : Z) (body : Z -> Z -> Z -> S -> result S) (s : S) :
  for_each (range 0 n) (fun i =>
    for_each (range 0 n) (fun j =>
      for_each (range 0 n) (fun k => body i j k))) s
  = for_each (cells n) (fun t => body (fst (fst t)) (snd (fst t)) (snd t)) s.
Proof.
  unfold cells. rewrite for_each_flat_map. apply for_each_ext. intros i s1.
  rewrite for_each_flat_map. apply for_each_ext. intros j s2.
  rewrite for_each_map. reflexivity.
Qed.

Lemma elem_of_cells (n i j k : Z) :
  (i, j, k) ∈ cells n <-> 0 <= i < n /\ 0 <= j < n /\ 0 <= k < n.
Proof.
  unfold cells. rewrite list_elem_of_In, in_flat_map. split.
  - intros (i' & Hi' & Hin). apply in_flat_map in Hin as (j' & Hj' & Hin).
    apply in_map_iff in Hin as (k' & [= <- <- <-] & Hk').
    rewrite <- list_elem_of_In, elem_of_range in Hi', Hj', Hk'. lia.
  - intros (Hi & Hj & Hk). exists i. split.
    + rewrite <- list_elem_of_In, elem_of_range. lia.
    + apply in_flat_map. exists j. split.
      * rewrite <- list_elem_of_In, elem_of_range. lia.
      * apply in_map_iff. exists k. split; [reflexivity |].
        rewrite <- list_elem_of_In, elem_of_range. lia.
Qed.

Lemma calculate_gradient_spec (fuel : nat) (s : Simulation) (potential : list fftw_complex) :
  mesh_ok s -> (1 <= fuel)%nat ->
  let n := number_of_cells s in
  Z.of_nat (length potential) = n * n * n ->
  exists gradient, calculate_gradient fuel s potential = Ok gradient
    /\ shape3 n gradient
    /\ forall i j k, 0 <= i < n -> 0 <= j < n -> 0 <= k < n ->
         get3 gradient i j k = Some (central_difference s potential i j k).
Proof.
  intros Hok Hfuel n Hlen. unfold calculate_gradient. fold n.
  rewrite for_each_cells.
  destruct (for_each_invariant
              (fun done gradient =>
                 shape3 n gradient
                 /\ forall i j k, (i, j, k) ∈ done ->
                      get3 gradient i j k = Some (central_difference s potential i j k))
              (fun t => gradient_cell fuel s potential (fst (fst t)) (snd (fst t)) (snd t))
              (cells n) (make3 n (mk3 0 0 0)))
    as (gradient & Hrun & Hshape & Hget).
  - split; [apply make3_shape3 |]. intros i j k Hin. apply elem_of_nil in Hin. contradiction.
  - intros done [[i j] k] rest g1 Hcells [Hs1 Hg1]. cbn [fst snd].
    assert ((i, j, k) ∈ cells n) as Hin
      by (rewrite Hcells; apply elem_of_app; right; left).
    apply elem_of_cells in Hin as (Hi & Hj & Hk).
    destruct (gradient_cell_spec fuel s potential i j k g1 Hok Hfuel Hlen Hs1 Hi Hj Hk)
      as (g2 & Hrun & Hs2 & Hg2 & Ho2).
    exists g2. split; [exact Hrun |]. split; [exact Hs2 |].
    intros i' j' k' Hin'.
    destruct (decide ((i', j', k') = (i, j, k))) as [[= -> -> ->] | Hne]; [exact Hg2 |].
    apply elem_of_app in Hin' as [Hin' | Hin'].
    + assert ((i', j', k') ∈ cells n) as Hc
        by (rewrite Hcells; apply elem_of_app; left; exact Hin').
      apply elem_of_cells in Hc as (Hi' & Hj' & Hk').
      rewrite Ho2 by (lia || exact Hne). apply Hg1. exact Hin'.
    + apply list_elem_of_singleton in Hin'. contradiction.
  - exists gradient. split; [exact Hrun |]. split; [exact Hshape |].
    intros i j k Hi Hj Hk. apply Hget. apply elem_of_cells. auto.
Qed.

Lemma phi_real_part_only (n : Z) (potential potential' : list fftw_complex) (i j k : Z) :
  map fst potential' = map fst potential ->
  phi n potential' i j k = phi n potential i j k.
Proof.
  intros H. unfold phi.
  set (m := Z.to_nat (k + n * (j + n * i))).
  assert (fst <$> potential' !! m = fst <$> potential !! m) as Hm
    by (rewrite <- !list_lookup_fmap; f_equal; exact H).
  destruct (potential' !! m), (potential !! m); cbn in *; congruence.
Qed.

Lemma central_difference_real_part_only (s : Simulation)
    (potential potential' : list fftw_complex) (i j k : Z) :
  map fst potential' = map fst potential ->
  central_difference s potential' i j k = central_difference s potential i j k.
Proof.
  intros H. unfold central_difference.
  rewrite !(phi_real_part_only _ potential potential') by exact H. reflexivity.
Qed.

(** C7: on a mesh that satisfies invariant 2, the gradient is computed
    (one unit of fuel suffices for its wrap loops) and holds, at every
    cell [(i, j, k)], the central difference of the real part of the
    potential with neighbours taken modulo [N_c], divided by
    [2 (W / N_c)]; at a cell [(0, j, k)] the low neighbour is
    [(N_c - 1, j, k)]; and two potentials with the same real parts give the
    same gradient at every cell. *)
Theorem gradient_is_periodic_central_difference (fuel : nat) (s : Simulation)
    (potential : list fftw_complex) :
  mesh_ok s -> (1 <= fuel)%nat ->
  let n := number_of_cells s in
  let h := (box_width s / inject_Z n)%Q in
  Z.of_nat (length potential) = n * n * n ->
  exists gradient, calculate_gradient fuel s potential = Ok gradient
    /\ (forall i j k, 0 <= i < n -> 0 <= j < n -> 0 <= k < n ->
          read3 gradient i j k
          = Ok (mk3
                 ((phi n potential ((i + 1) mod n) j k
                   - phi n potential ((i - 1) mod n) j k) / (2 * h))%Q
                 ((phi n potential i ((j + 1) mod n) k
                   - phi n potential i ((j - 1) mod n) k) / (2 * h))%Q
                 ((phi n potential i j ((k + 1) mod n)
                   - phi n potential i j ((k - 1) mod n)) / (2 * h))%Q))
    /\ (forall j k, 0 <= j < n -> 0 <= k < n ->
          exists g, read3 gradient 0 j k = Ok g
            /\ c0 g = ((phi n potential (1 mod n) j k - phi n potential (n - 1) j k)
                       / (2 * h))%Q)
    /\ (forall potential' : list fftw_complex,
          map fst potential' = map fst potential ->
          exists gradient', calculate_gradient fuel s potential' = Ok gradient'
            /\ forall i j k, 0 <= i < n -> 0 <= j < n -> 0 <= k < n ->
                 read3 gradient' i j k = read3 gradient i j k).
Proof.
  intros Hok Hfuel n h Hlen. pose proof Hok as (Hn & _). fold n in Hn.
  destruct (calculate_gradient_spec fuel s potential Hok Hfuel Hlen)
    as (gradient & Hrun & Hshape & Hget). fold n in Hshape, Hget.
  exists gradient. split; [exact Hrun |].
  assert (forall i j k, 0 <= i < n -> 0 <= j < n -> 0 <= k < n ->
            read3 gradient i j k = Ok (central_difference s potential i j k)) as Hread.
  { intros i j k Hi Hj Hk. apply read3_of_get3; try lia. apply Hget; assumption. }
  split; [exact Hread |]. split.
  - intros j k Hj Hk. eexists. split; [apply Hread; lia |].
    cbn [central_difference c0]. fold n h.
    replace ((0 - 1) mod n) with (n - 1); [reflexivity |].
    replace (0 - 1) with (n - 1 + (-1) * n) by ring.
    rewrite Z.mod_add by lia. symmetry. apply Z.mod_small. lia.
  - intros potential' Hre.
    assert (Z.of_nat (length potential') = n * n * n) as Hlen'.
    { rewrite <- Hlen. f_equal.
      rewrite <- (length_map fst potential'), Hre. apply length_map. }
    destruct (calculate_gradient_spec fuel s potential' Hok Hfuel Hlen')
      as (gradient' & Hrun' & _ & Hget'). fold n in Hget'.
    exists gradient'. split; [exact Hrun' |].
    intros i j k Hi Hj Hk. rewrite Hread by assumption.
    apply read3_of_get3; try lia. rewrite Hget' by assumption.
    f_equal. apply central_difference_real_part_only. exact Hre.
Qed.

(** On the sample (potential [m^2] at flat index [m], unit cell width)
    the gradient at cell (0, 1, 2) is ((196 - 529) / 2, (64 - 4) / 2,
    (9 - 16) / 2). *)
Example calculate_gradient_sample :
  exists gradient,
    calculate_gradient 1 sample_simulation sample_potential = Ok gradient
    /\ read3 gradient 0 1 2 = Ok (mk3 (-999 # 6) (180 # 6) (-21 # 6)).
Proof. eexists. split; vm_compute; reflexivity. Qed.

Lemma gradient_is_periodic_central_difference_witness :
  exists gradient,
    calculate_gradient 1 sample_simulation (potential_buffer sample_simulation) = Ok gradient
    /\ forall j k, 0 <= j < 3 -> 0 <= k < 3 ->
         exists g, read3 gradient 0 j k = Ok g
           /\ c0 g = ((phi 3 (potential_buffer sample_simulation) (1 mod 3) j k
                       - phi 3 (potential_buffer sample_simulation) (3 - 1) j k)
                      / (2 * (3 / inject_Z 3)))%Q.
Proof.
  destruct (gradient_is_periodic_central_difference 1 sample_simulation
              (potential_buffer sample_simulation))
    as (gradient & Hrun & _ & Hlow & _).
  - exact sample_simulation_mesh_ok.
  - lia.
  - reflexivity.
  - exists gradient. split; [exact Hrun | exact Hlow].
Defined.

(** ** The integrator *)

Lemma inject_Z_opp_of_nat_S (m : nat) :
  (inject_Z (- Z.of_nat (S m)) == inject_Z (- Z.of_nat m) - 1)%Q.
Proof.
  rewrite Nat2Z.inj_succ. unfold Z.succ. rewrite Z.opp_add_distr, inject_Z_plus.
  reflexivity.
Qed.

(** [while (p < 0) {p += 1;}] needs at most [m] iterations when
    [-m <= p]. *)
Lemma boundary_up (m : nat) :
  forall (p : Q) (fuel : nat),
    (inject_Z (- Z.of_nat m) <= p)%Q -> (m <= fuel)%nat ->
    exists p1 z, while_loop fuel (fun p => Qlt_bool p 0) (fun p => (p + 1)%Q) p = Ok p1
      /\ (0 <= p1)%Q
      /\ ((p < 0)%Q -> (p1 < 1)%Q)
      /\ ((0 <= p)%Q -> p1 = p)
      /\ (p1 == p + inject_Z z)%Q.
Proof.
  induction m as [| m IH]; intros p fuel Hp Hfuel.
  - change (inject_Z (- Z.of_nat 0)) with 0%Q in Hp.
    exists p, 0. rewrite while_loop_exit.
    + repeat split; try assumption; try reflexivity; [lra | cbn; ring].
    + destruct (Qlt_bool p 0) eqn:E; [apply Qlt_bool_iff in E; lra | reflexivity].
  - destruct (Qlt_le_dec p 0) as [Hneg | Hpos].
    + destruct fuel as [| fuel]; [lia |].
      rewrite while_loop_step by (apply Qlt_bool_iff; exact Hneg).
      destruct (IH (p + 1)%Q fuel) as (p1 & z & Hrun & H0 & Hlt & Heq & Hz).
      * rewrite inject_Z_opp_of_nat_S in Hp. lra.
      * lia.
      * exists p1, (z + 1). rewrite Hrun. repeat split; try assumption.
        -- intros _. destruct (Qlt_le_dec (p + 1) 0) as [Hn | Hp'].
           ++ apply Hlt. exact Hn.
           ++ rewrite (Heq Hp'). lra.
        -- intros ?. lra.
        -- rewrite Hz, inject_Z_plus. change (inject_Z 1) with 1%Q. ring.
    + exists p, 0. rewrite while_loop_exit.
      * repeat split; try assumption; try reflexivity; [lra | cbn; ring].
      * destruct (Qlt_bool p 0) eqn:E; [apply Qlt_bool_iff in E; lra | reflexivity].
Qed.

(** [while (p >= 1) {p -= 1;}] needs at most [m] iterations when
    [p < m + 1]. *)
Lemma boundary_down (m : nat) :
  forall (p : Q) (fuel : nat),
    (0 <= p)%Q -> (p < inject_Z (Z.of_nat m) + 1)%Q -> (m <= fuel)%nat ->
    exists p2 z, while_loop fuel (fun p => Qle_bool 1 p) (fun p => (p - 1)%Q) p = Ok p2
      /\ (0 <= p2)%Q /\ (p2 < 1)%Q
      /\ (p2 == p + inject_Z z)%Q.
Proof.
  induction m as [| m IH]; intros p fuel H0 Hp Hfuel.
  - change (inject_Z (Z.of_nat 0)) with 0%Q in Hp.
    exists p, 0. rewrite while_loop_exit.
    + repeat split; try assumption; try lra. cbn; ring.
    + apply Qle_bool_false. lra.
  - destruct (Qlt_le_dec p 1) as [Hlt | Hge].
    + exists p, 0. rewrite while_loop_exit.
      * repeat split; try assumption. cbn; ring.
      * apply Qle_bool_false. exact Hlt.
    + destruct fuel as [| fuel]; [lia |].
      rewrite while_loop_step by (apply Qle_bool_iff; exact Hge).
      destruct (IH (p - 1)%Q fuel) as (p2 & z & Hrun & H0' & H1' & Hz).
      * lra.
      * rewrite inject_Z_of_nat_S in Hp. lra.
      * lia.
      * exists p2, (z - 1). rewrite Hrun. repeat split; try assumption.
        rewrite Hz. unfold Z.sub. rewrite inject_Z_plus, inject_Z_opp.
        change (inject_Z 1) with 1%Q. ring.
Qed.

Lemma apply_boundary_spec (p : Q) (fuel : nat) :
  (boundary_fuel p <= fuel)%nat ->
  exists p' z, apply_boundary fuel p = Ok p'
    /\ in_unit_interval p'
    /\ (p' == p + inject_Z z)%Q.
Proof.
  intros Hfuel. unfold boundary_fuel in Hfuel. unfold apply_boundary.
  pose proof (Qfloor_le p) as Hfl. pose proof (Qlt_floor p) as Hfu.
  rewrite inject_Z_plus in Hfu. change (inject_Z 1) with 1%Q in Hfu.
  destruct (Qlt_le_dec p 0) as [Hneg | Hpos].
  - assert (Qfloor p < 0) as Hfneg.
    { rewrite Zlt_Qlt. change (inject_Z 0) with 0%Q. lra. }
    destruct (boundary_up (Z.abs_nat (Qfloor p)) p fuel) as (p1 & z & Hrun & H0 & H1 & _ & Hz).
    { rewrite Zabs2Nat.id_abs, Z.abs_neq by lia. rewrite Z.opp_involutive. exact Hfl. }
    { exact Hfuel. }
    rewrite Hrun. cbn [bind].
    destruct (boundary_down 0 p1 fuel) as (p2 & z2 & Hrun2 & H0' & H1' & Hz2).
    { exact H0. }
    { change (inject_Z (Z.of_nat 0)) with 0%Q. specialize (H1 Hneg). lra. }
    { lia. }
    exists p2, (z + z2). rewrite Hrun2. split; [reflexivity |].
    split; [split; assumption |]. rewrite Hz2, Hz, inject_Z_plus. ring.
  - assert (0 <= Qfloor p) as Hfpos.
    { change 0 with (Qfloor (inject_Z 0)). apply Qfloor_resp_le. exact Hpos. }
    destruct (boundary_up 0 p fuel) as (p1 & z & Hrun & H0 & _ & Heq & _).
    { change (inject_Z (- Z.of_nat 0)) with 0%Q. exact Hpos. }
    { lia. }
    rewrite Hrun. cbn [bind]. rewrite (Heq Hpos).
    destruct (boundary_down (Z.abs_nat (Qfloor p)) p fuel) as (p2 & z2 & Hrun2 & H0' & H1' & Hz2).
    { exact Hpos. }
    { rewrite Zabs2Nat.id_abs, Z.abs_eq by lia. exact Hfu. }
    { exact Hfuel. }
    exists p2, z2. rewrite Hrun2. split; [reflexivity |].
    split; [split; assumption | exact Hz2].
Qed.

Lemma update_particle_spec (fuel : nat) (s : Simulation) (gradient : vector3 array3)
    (p : particle) (g : array3) :
  let n := number_of_cells s in
  read3 gradient (cell_of n (c0 (position p))) (cell_of n (c1 (position p)))
    (cell_of n (c2 (position p))) = Ok g ->
  (particle_fuel s g p <= fuel)%nat ->
  exists p', update_particle fuel s gradient p = Ok p'
    /\ velocity p' = kicked s g p
    /\ in_unit_box p'
    /\ (exists z, c0 (position p') == c0 (drifted s g p) + inject_Z z)%Q
    /\ (exists z, c1 (position p') == c1 (drifted s g p) + inject_Z z)%Q
    /\ (exists z, c2 (position p') == c2 (drifted s g p) + inject_Z z)%Q.
Proof.
  intros n Hread Hfuel. unfold particle_fuel in Hfuel.
  unfold update_particle. fold n. rewrite Hread. cbn [bind].
  destruct (apply_boundary_spec (c0 (drifted s g p)) fuel) as (p0 & z0 & Hr0 & Hu0 & Hz0); [lia |].
  destruct (apply_boundary_spec (c1 (drifted s g p)) fuel) as (p1 & z1 & Hr1 & Hu1 & Hz1); [lia |].
  destruct (apply_boundary_spec (c2 (drifted s g p)) fuel) as (p2 & z2 & Hr2 & Hu2 & Hz2); [lia |].
  cbn [drifted kicked c0 c1 c2] in Hr0, Hr1, Hr2.
  rewrite Hr0. cbn [bind]. rewrite Hr1. cbn [bind]. rewrite Hr2. cbn [bind].
  eexists. split; [reflexivity |]. cbn [velocity position c0 c1 c2].
  split; [reflexivity |]. split; [repeat split; apply Hu0 || apply Hu1 || apply Hu2 |].
  split; [exists z0; exact Hz0 |]. split; [exists z1; exact Hz1 | exists z2; exact Hz2].
Qed.

Lemma map_each_Forall2 {A B : Type} (f : A -> result B) (P : A -> B -> Prop) (l : list A) :
  Forall (fun a => exists b, f a = Ok b /\ P a b) l ->
  exists bs, map_each f l = Ok bs /\ Forall2 P l bs.
Proof.
  induction 1 as [| a l (b & Hb & HP) _ (bs & Hbs & HF)].
  - exists []. split; [reflexivity | constructor].
  - exists (b :: bs). cbn. rewrite Hb. cbn. rewrite Hbs. cbn.
    split; [reflexivity | constructor; assumption].
Qed.

Lemma step_fuel_bounds (s : Simulation) :
  (1 <= step_fuel s)%nat
  /\ Forall (fun p => (particle_fuel s (gradient_at s p) p <= step_fuel s)%nat)
            (particles (particle_collection s)).
Proof.
  unfold step_fuel. induction (particles (particle_collection s)) as [| p ps [IH1 IH2]].
  - split; [cbn; lia | constructor].
  - cbn [foldr]. split; [lia |]. constructor; [lia |].
    eapply Forall_impl; [exact IH2 |]. cbn. intros q Hq. lia.
Qed.

(** What one integrator step does to the particles. *)
Lemma update_particles_spec (fuel : nat) (s : Simulation) :
  mesh_ok s -> Forall in_unit_box (particles (particle_collection s)) ->
  (step_fuel s <= fuel)%nat ->
  exists ps, update_particles fuel s = Ok (set_particles s ps)
    /\ Forall2 (kick_drift s) (particles (particle_collection s)) ps.
Proof.
  intros Hok Hps Hfuel. pose proof Hok as (Hn & Hfit & _ & Hp & _).
  destruct (step_fuel_bounds s) as [Hone Hall].
  destruct (calculate_gradient_spec fuel s (potential_buffer s) Hok ltac:(lia) Hp)
    as (gradient & Hrun & Hshape & Hget).
  unfold update_particles. rewrite Hrun. cbn [bind].
  destruct (map_each_Forall2 (update_particle fuel s gradient) (kick_drift s)
              (particles (particle_collection s))) as (ps & Hmap & Hrel).
  { rewrite Forall_forall in Hps, Hall. apply Forall_forall. intros p Hin.
    pose proof (Hps p Hin) as (Hx & Hy & Hz).
    assert (1 <= number_of_cells s < 2 ^ 32) as Hn' by nia.
    pose proof (cell_of_bounds _ _ Hn' Hx) as Hi.
    pose proof (cell_of_bounds _ _ Hn' Hy) as Hj.
    pose proof (cell_of_bounds _ _ Hn' Hz) as Hk.
    destruct (update_particle_spec fuel s gradient p (gradient_at s p)) as (p' & Hp' & Hrest).
    - apply read3_of_get3; try lia. apply Hget; assumption.
    - specialize (Hall p Hin). cbn in Hall. lia.
    - exists p'. split; [exact Hp' | exact Hrest]. }
  rewrite Hmap. cbn [bind]. exists ps. split; [reflexivity | exact Hrel].
Qed.

Lemma box_expansion_keeps_unit_box (s : Simulation) :
  Forall in_unit_box (particles (particle_collection s)) ->
  Forall in_unit_box (particles (particle_collection (box_expansion s))).
Proof.
  intros H. unfold box_expansion.
  cbn [set_particles set_box_width particle_collection particles expansion_factor].
  apply Forall_fmap. eapply Forall_impl; [exact H |].
  intros p Hp. exact Hp.
Qed.

Lemma kick_drift_in_unit_box (s : Simulation) (l l' : list particle) :
  Forall2 (kick_drift s) l l' -> Forall in_unit_box l'.
Proof.
  induction 1 as [| p p' l l' Hpp' _ IH]; constructor; [apply Hpp' | exact IH].
Qed.

(** C5: on a mesh that satisfies invariant 2 and from positions inside
    the unit box, one integrator step (kick, drift, periodic wrap)
    followed by the box expansion leaves every position inside the unit
    box again; the step completes for any fuel from [step_fuel] on. *)
Theorem positions_stay_in_unit_box (fuel : nat) (s : Simulation) :
  mesh_ok s -> Forall in_unit_box (particles (particle_collection s)) ->
  (step_fuel s <= fuel)%nat ->
  exists s', update_particles fuel s = Ok s'
    /\ Forall2 (kick_drift s) (particles (particle_collection s))
               (particles (particle_collection s'))
    /\ Forall in_unit_box (particles (particle_collection s'))
    /\ Forall in_unit_box (particles (particle_collection (box_expansion s'))).
Proof.
  intros Hok Hps Hfuel.
  destruct (update_particles_spec fuel s Hok Hps Hfuel) as (ps & Hrun & Hrel).
  exists (set_particles s ps). split; [exact Hrun |].
  pose proof (kick_drift_in_unit_box s _ _ Hrel) as Hbox.
  cbn [set_particles particle_collection particles].
  split; [exact Hrel |]. split; [exact Hbox |].
  apply box_expansion_keeps_unit_box.
  cbn [set_particles particle_collection particles]. exact Hbox.
Qed.

(** The first particle of the sample drifts from 0.5 to beyond 2 on the
    first axis and is wrapped back into the unit interval. *)
Example update_particles_sample :
  exists s' p q, update_particles 3 sample_simulation = Ok s'
    /\ particles (particle_collection s') = [p; q]
    /\ (c0 (position p) == 973 # 1000)%Q
    /\ (c0 (velocity p) == 2473 # 10)%Q.
Proof.
  eexists. eexists. eexists. split; [vm_compute; reflexivity |].
  split; [reflexivity |]. split; reflexivity.
Qed.

Example update_particles_sample_short_of_fuel :
  update_particles 2 sample_simulation = Fail OutOfFuel.
Proof. vm_compute. reflexivity. Qed.

Lemma positions_stay_in_unit_box_witness :
  exists s', update_particles 3 sample_simulation = Ok s'
    /\ Forall in_unit_box (particles (particle_collection (box_expansion s'))).
Proof.
  destruct (positions_stay_in_unit_box 3 sample_simulation) as (s' & Hrun & _ & _ & Hbox).
  - exact sample_simulation_mesh_ok.
  - repeat constructor; cbn; discriminate.
  - vm_compute. lia.
  - exists s'. split; [exact Hrun | exact Hbox].
Defined.

(** ** The driver loop *)

Lemma set_density_mesh_ok (s : Simulation) (density : list fftw_complex) :
  mesh_ok s ->
  Z.of_nat (length density) = number_of_cells s * number_of_cells s * number_of_cells s ->
  mesh_ok (set_density s density).
Proof.
  intros (Hn & Hfit & _ & Hp & Hk) Hlen. unfold mesh_ok. cbn. auto.
Qed.

Lemma set_particles_mesh_ok (s : Simulation) (ps : list particle) :
  mesh_ok s -> mesh_ok (set_particles s ps).
Proof. intros H. exact H. Qed.

Lemma box_expansion_mesh_ok (s : Simulation) : mesh_ok s -> mesh_ok (box_expansion s).
Proof. intros H. exact H. Qed.

(** Results do not change when fuel is added. *)
Lemma while_loop_monotone {S : Type} (cond : S -> bool) (body : S -> S) (s : S) :
  fuel_monotone (fun fuel => while_loop fuel cond body s).
Proof.
  intros fuel. revert s. induction fuel as [| fuel IH]; intros s fuel' r Hrun Hle.
  - cbn in Hrun. destruct (cond s) eqn:E; [discriminate |].
    injection Hrun as <-. apply while_loop_exit. exact E.
  - destruct (cond s) eqn:E.
    + rewrite while_loop_step in Hrun by exact E.
      destruct fuel' as [| fuel']; [lia |].
      rewrite while_loop_step by exact E. apply (IH _ _ _ Hrun). lia.
    + rewrite while_loop_exit in Hrun by exact E. injection Hrun as <-.
      apply while_loop_exit. exact E.
Qed.

Lemma bind_monotone {A B : Type} (f : nat -> result A) (g : nat -> A -> result B) :
  fuel_monotone f -> (forall a, fuel_monotone (fun fuel => g fuel a)) ->
  fuel_monotone (fun fuel => do a <~ f fuel; g fuel a).
Proof.
  intros Hf Hg fuel fuel' r Hrun Hle. cbn beta in *.
  destruct (f fuel) as [a | e] eqn:E; [| discriminate].
  rewrite (Hf fuel fuel' a E Hle). cbn [bind] in *. exact (Hg a fuel fuel' r Hrun Hle).
Qed.

Lemma const_monotone {A : Type} (c : result A) : fuel_monotone (fun _ => c).
Proof. intros fuel fuel' r H _. exact H. Qed.

Lemma for_each_monotone {A S : Type} (body : nat -> A -> S -> result S) (l : list A) :
  (forall a s, fuel_monotone (fun fuel => body fuel a s)) ->
  forall s, fuel_monotone (fun fuel => for_each l (body fuel) s).
Proof.
  intros Hbody. induction l as [| a l IH]; intros s; cbn [for_each];
    [apply const_monotone |].
  apply bind_monotone; [apply Hbody | exact IH].
Qed.

Lemma map_each_monotone {A B : Type} (f : nat -> A -> result B) (l : list A) :
  (forall a, fuel_monotone (fun fuel => f fuel a)) ->
  fuel_monotone (fun fuel => map_each (f fuel) l).
Proof.
  intros Hf. induction l as [| a l IH]; cbn [map_each]; [apply const_monotone |].
  apply bind_monotone; [apply Hf |].
  intros b. apply bind_monotone; [exact IH |].
  intros bs. apply const_monotone.
Qed.

Lemma apply_boundary_monotone (p : Q) : fuel_monotone (fun fuel => apply_boundary fuel p).
Proof.
  unfold apply_boundary. apply bind_monotone; [apply while_loop_monotone |].
  intros p1. apply while_loop_monotone.
Qed.

Lemma update_particle_monotone (s : Simulation) (gradient : vector3 array3) (p : particle) :
  fuel_monotone (fun fuel => update_particle fuel s gradient p).
Proof.
  unfold update_particle. apply bind_monotone; [apply const_monotone |].
  intros g. apply bind_monotone; [apply apply_boundary_monotone |].
  intros p0. apply bind_monotone; [apply apply_boundary_monotone |].
  intros p1. apply bind_monotone; [apply apply_boundary_monotone |].
  intros p2. apply const_monotone.
Qed.

Lemma gradient_cell_monotone (s : Simulation) (potential : list fftw_complex)
    (i j k : Z) (gradient : vector3 array3) :
  fuel_monotone (fun fuel => gradient_cell fuel s potential i j k gradient).
Proof.
  unfold gradient_cell, wrap_high, wrap_low.
  repeat (apply bind_monotone;
          [first [apply while_loop_monotone | apply const_monotone] | intros ?]).
  apply const_monotone.
Qed.

Lemma calculate_gradient_monotone (s : Simulation) (potential : list fftw_complex) :
  fuel_monotone (fun fuel => calculate_gradient fuel s potential).
Proof.
  unfold calculate_gradient.
  apply (for_each_monotone
           (fun fuel i => for_each (range 0 (number_of_cells s)) (fun j =>
              for_each (range 0 (number_of_cells s)) (fun k =>
                gradient_cell fuel s potential i j k)))).
  intros i g.
  apply (for_each_monotone
           (fun fuel j => for_each (range 0 (number_of_cells s)) (fun k =>
              gradient_cell fuel s potential i j k))).
  intros j g'.
  apply (for_each_monotone (fun fuel k => gradient_cell fuel s potential i j k)).
  intros k g''. apply gradient_cell_monotone.
Qed.

Lemma update_particles_monotone (s : Simulation) :
  fuel_monotone (fun fuel => update_particles fuel s).
Proof.
  unfold update_particles. apply bind_monotone; [apply calculate_gradient_monotone |].
  intros gradient.
  apply (bind_monotone (fun fuel => map_each (update_particle fuel s gradient) _)).
  - apply map_each_monotone. intros p. apply update_particle_monotone.
  - intros ps. apply const_monotone.
Qed.

Lemma advance_monotone (dft : fftw_transform) (s : Simulation) :
  fuel_monotone (fun fuel => advance dft fuel s).
Proof.
  unfold advance. apply bind_monotone; [apply const_monotone |].
  intros s1. apply bind_monotone; [apply const_monotone |].
  intros s2. apply bind_monotone; [apply update_particles_monotone |].
  intros s3. apply const_monotone.
Qed.

(** One iteration of the loop of [run] keeps the object well formed; its
    result is the same for any fuel from some bound on. *)
Lemma advance_spec (dft : fftw_transform) (s : Simulation) :
  well_formed s ->
  exists fuel0 s',
    (forall fuel, (fuel0 <= fuel)%nat -> advance dft fuel s = Ok s')
    /\ well_formed s'
    /\ k_space_buffer s' !! 0%nat = Some (0%Q, 0%Q)
    /\ box_width s' = (box_width s * expansion_factor s)%Q
    /\ time_max s' = time_max s
    /\ time_step s' = time_step s.
Proof.
  intros [Hok Hps].
  destruct (fill_density_buffer_spec s Hok Hps) as (density & Hrun1 & Hlen1 & _).
  pose proof (set_density_mesh_ok s density Hok Hlen1) as Hok1.
  destruct (fill_potential_buffer_spec dft _ Hok1)
    as (s2 & Hrun2 & Hdc & _ & _ & _ & Hpc & Hw & Hn & Htm & Hts & Ha & Hok2).
  cbn [set_density particle_collection box_width number_of_cells time_max time_step
       expansion_factor] in Hpc, Hw, Hn, Htm, Hts, Ha.
  assert (Forall in_unit_box (particles (particle_collection s2))) as Hps2
    by (rewrite Hpc; exact Hps).
  destruct (update_particles_spec (step_fuel s2) s2 Hok2 Hps2 (Nat.le_refl _))
    as (ps & Hrun3 & Hrel).
  exists (step_fuel s2), (box_expansion (set_particles s2 ps)).
  split; [| split; [split |]].
  - intros fuel Hfuel. apply (advance_monotone dft s (step_fuel s2)); [| exact Hfuel].
    unfold advance. rewrite Hrun1. cbn [bind]. rewrite Hrun2. cbn [bind].
    rewrite Hrun3. reflexivity.
  - apply box_expansion_mesh_ok, set_particles_mesh_ok. exact Hok2.
  - apply box_expansion_keeps_unit_box.
    cbn [set_particles particle_collection particles].
    exact (kick_drift_in_unit_box s2 _ _ Hrel).
  - unfold box_expansion.
    cbn [set_particles set_box_width k_space_buffer box_width time_max time_step
         expansion_factor].
    rewrite Hw, Ha. repeat split; assumption.
Qed.

(** [run_from] keeps the object well formed and comes to an end when at
    most [m] time steps are left. *)
Lemma run_from_completes (dft : fftw_transform) (m : nat) :
  forall (t : Q) (s : Simulation),
    well_formed s ->
    (time_max s - t <= inject_Z (Z.of_nat m) * time_step s)%Q ->
    exists fuel0 s',
      (forall fuel steps, (fuel0 <= fuel)%nat -> (m <= steps)%nat ->
         run_from dft fuel steps t s = Ok s')
      /\ well_formed s'.
Proof.
  induction m as [| m IH]; intros t s Hwf Ht.
  - exists 0%nat, s. split; [| exact Hwf]. intros fuel steps _ _.
    assert (Qlt_bool t (time_max s) = false) as Hcond.
    { destruct (Qlt_bool t (time_max s)) eqn:E; [| reflexivity].
      apply Qlt_bool_iff in E. change (inject_Z (Z.of_nat 0)) with 0%Q in Ht. lra. }
    destruct steps; cbn; rewrite Hcond; reflexivity.
  - destruct (Qlt_bool t (time_max s)) eqn:Hcond.
    + destruct (advance_spec dft s Hwf) as (fuel1 & s1 & Hadv & Hwf1 & _ & _ & Htm & Hts).
      destruct (IH (t + time_step s)%Q s1 Hwf1) as (fuel2 & s' & Hrest & Hwf').
      { rewrite Htm, Hts. rewrite inject_Z_of_nat_S in Ht. lra. }
      exists (Nat.max fuel1 fuel2), s'. split; [| exact Hwf'].
      intros fuel steps Hfuel Hsteps.
      destruct steps as [| steps]; [lia |].
      cbn [run_from]. rewrite Hcond, Hadv by lia. cbn [bind].
      apply Hrest; lia.
    + exists 0%nat, s. split; [| exact Hwf]. intros fuel steps _ _.
      destruct steps; cbn; rewrite Hcond; reflexivity.
Qed.

(** With a positive time step, [run] comes to an end and leaves a well
    formed object. *)
Lemma run_completes (dft : fftw_transform) (s : Simulation) :
  well_formed s -> (0 < time_step s)%Q ->
  exists fuel0 steps0 s',
    (forall fuel steps, (fuel0 <= fuel)%nat -> (steps0 <= steps)%nat ->
       run dft fuel steps s = Ok s')
    /\ well_formed s'.
Proof.
  intros Hwf Hdt.
  set (m := Z.to_nat (Qceiling (time_max s / time_step s))).
  destruct (run_from_completes dft m 0%Q s Hwf) as (fuel0 & s' & Hrun & Hwf').
  - pose proof (Qle_ceiling (time_max s / time_step s)) as Hceil.
    assert (inject_Z (Qceiling (time_max s / time_step s)) <= inject_Z (Z.of_nat m))%Q
      as Hm by (rewrite <- Zle_Qle; unfold m; lia).
    assert (time_max s == time_max s / time_step s * time_step s)%Q as Hdiv
      by (field; lra).
    rewrite Hdiv at 1. nra.
  - exists fuel0, m, s'. split; [| exact Hwf']. intros fuel steps Hf Hs.
    apply Hrun; assumption.
Qed.

(** ** The earlier depositor *)

Lemma ngp_cell_bounds (n : Z) (p : particle) :
  1 <= n -> in_unit_box p ->
  0 <= fst (fst (ngp_cell n p)) < n
  /\ 0 <= snd (fst (ngp_cell n p)) < n
  /\ 0 <= snd (ngp_cell n p) < n.
Proof.
  intros Hn (Hx & Hy & Hz). cbn.
  repeat split; apply Qfloor_scaled_bounds; assumption.
Qed.

Lemma size_t_of_double_floor (n : Z) (x : Q) :
  1 <= n < 2 ^ 32 -> in_unit_interval x ->
  size_t_of_double (floor (x * inject_Z n)) = Qfloor (x * inject_Z n).
Proof.
  intros Hn Hx. pose proof (Qfloor_scaled_bounds n x (proj1 Hn) Hx) as Hb.
  unfold size_t_of_double, floor, size_t. rewrite Qtruncate_inject_Z.
  apply Z.mod_small. lia.
Qed.

Lemma uadd_uint_1 (x : Z) : uadd (uint x) 1 = uint (x + 1).
Proof. unfold uadd, uint. apply Zplus_mod_idemp_l. Qed.

Lemma cell_hits_snoc (n i j k : Z) (ps : list particle) (p : particle) :
  cell_hits n i j k (ps ++ [p])
  = (cell_hits n i j k ps + (if decide (ngp_cell n p = (i, j, k)) then 1 else 0))%nat.
Proof.
  unfold cell_hits. rewrite filter_app, length_app. f_equal.
  destruct (decide (ngp_cell n p = (i, j, k))) as [He | Hne].
  - rewrite filter_cons_True by exact He. reflexivity.
  - rewrite filter_cons_False by exact Hne. reflexivity.
Qed.


Lemma count_particle_spec (s : Simulation) (p : particle) (counts : vector3 Z) :
  let n := number_of_cells s in
  1 <= n < 2 ^ 32 -> in_unit_box p -> shape3 n counts ->
  exists counts', SimulationLib.count_particle s p counts = Ok counts'
    /\ shape3 n counts'
    /\ forall i j k, 0 <= i -> 0 <= j -> 0 <= k ->
         get3 counts' i j k
         = if decide (ngp_cell n p = (i, j, k))
           then (fun c => uadd c 1) <$> get3 counts i j k
           else get3 counts i j k.
Proof.
  intros n Hn Hp Hshape. pose proof Hp as (Hx & Hy & Hz).
  destruct (ngp_cell_bounds n p (proj1 Hn) Hp) as (Hi & Hj & Hk). cbn in Hi, Hj, Hk.
  unfold SimulationLib.count_particle. fold n.
  rewrite !size_t_of_double_floor by assumption.
  destruct (write3_spec n counts _ _ _ (fun c => uadd c 1) Hshape Hi Hj Hk)
    as (counts' & Hrun & Hs' & Hsame & Hother).
  exists counts'. split; [exact Hrun |]. split; [exact Hs' |].
  intros i j k Hi' Hj' Hk'. unfold ngp_cell.
  destruct (decide (_ = (i, j, k))) as [[= <- <- <-] | Hne]; [exact Hsame |].
  apply Hother; try assumption. intros Heq. apply Hne. symmetry. exact Heq.
Qed.

(** After binning, counter [(i, j, k)] holds the number of particles of
    that cell, reduced to [unsigned int]. *)
Lemma bin_particles_spec (s : Simulation) :
  let n := number_of_cells s in
  1 <= n < 2 ^ 32 -> Forall in_unit_box (particles (particle_collection s)) ->
  exists counts, SimulationLib.bin_particles s = Ok counts
    /\ shape3 n counts
    /\ forall i j k, 0 <= i < n -> 0 <= j < n -> 0 <= k < n ->
         get3 counts i j k
         = Some (uint (Z.of_nat (cell_hits n i j k (particles (particle_collection s))))).
Proof.
  intros n Hn Hps. unfold SimulationLib.bin_particles. fold n.
  apply (for_each_invariant
           (fun done counts =>
              shape3 n counts
              /\ forall i j k, 0 <= i < n -> 0 <= j < n -> 0 <= k < n ->
                   get3 counts i j k = Some (uint (Z.of_nat (cell_hits n i j k done))))).
  - split; [apply make3_shape3 |]. intros i j k Hi Hj Hk.
    unfold get3, make3. rewrite !lookup_replicate_2 by lia. reflexivity.
  - intros done p rest counts Hsplit [Hshape Hget].
    assert (in_unit_box p) as Hp.
    { rewrite Forall_forall in Hps. apply Hps. rewrite Hsplit.
      apply elem_of_app. right. left. }
    destruct (count_particle_spec s p counts Hn Hp Hshape) as (counts' & Hrun & Hs' & Hget').
    exists counts'. split; [exact Hrun |]. split; [exact Hs' |].
    intros i j k Hi Hj Hk. fold n in Hget'.
    rewrite Hget' by lia. rewrite cell_hits_snoc.
    destruct (decide (ngp_cell n p = (i, j, k))) as [He | Hne].
    + rewrite Hget by assumption. cbn. rewrite uadd_uint_1. do 2 f_equal. lia.
    + rewrite Hget by assumption. do 2 f_equal. lia.
Qed.


Lemma flat_injective (n i j k i' j' k' : Z) :
  0 <= j < n -> 0 <= k < n -> 0 <= j' < n -> 0 <= k' < n ->
  k + n * (j + n * i) = k' + n * (j' + n * i') ->
  (i, j, k) = (i', j', k').
Proof.
  intros Hj Hk Hj' Hk' Heq.
  destruct (Z.div_mod_unique n (j + n * i) (j' + n * i') k k') as [Hq ->];
    [left; lia | left; lia | lia |].
  destruct (Z.div_mod_unique n i i' j j') as [-> ->];
    [left; lia | left; lia | lia |].
  reflexivity.
Qed.

Lemma hits_cell_hits (n i j k : Z) (ps : list particle) :
  1 <= n -> 0 <= j < n -> 0 <= k < n -> Forall in_unit_box ps ->
  hits n (k + n * (j + n * i)) ps = cell_hits n i j k ps.
Proof.
  intros Hn Hj Hk Hps. unfold hits, cell_hits.
  induction Hps as [| p ps Hp _ IH]; [reflexivity |].
  destruct (ngp_cell_bounds n p Hn Hp) as (Hi' & Hj' & Hk'). cbn in Hi', Hj', Hk'.
  destruct (decide (ngp_cell n p = (i, j, k))) as [He | Hne].
  - rewrite (filter_cons_True (fun p => ngp_cell n p = (i, j, k))) by exact He.
    rewrite filter_cons_True.
    + cbn [length]. f_equal. exact IH.
    + unfold ngp_cell in He. injection He as <- <- <-. reflexivity.
  - rewrite (filter_cons_False (fun p => ngp_cell n p = (i, j, k))) by exact Hne.
    rewrite filter_cons_False; [exact IH |].
    intros Heq. apply Hne. unfold ngp_index in Heq. unfold ngp_cell.
    apply (flat_injective n); assumption.
Qed.

Lemma cell_hits_le (n i j k : Z) (ps : list particle) :
  (cell_hits n i j k ps <= length ps)%nat.
Proof. unfold cell_hits. apply length_filter. Qed.

Lemma fill_cell_spec (s : Simulation) (counts : vector3 Z) (i j k c : Z)
    (density : list fftw_complex) :
  mesh_ok s ->
  let n := number_of_cells s in
  get3 counts i j k = Some c ->
  Z.of_nat (length density) = n * n * n ->
  0 <= i < n -> 0 <= j < n -> 0 <= k < n ->
  SimulationLib.fill_cell s counts i j k density
  = Ok (alter (fun d => ((inject_Z c * mass (particle_collection s)
                          / (box_width s / inject_Z n * (box_width s / inject_Z n)
                             * (box_width s / inject_Z n)))%Q, snd d))
          (Z.to_nat (k + n * (j + n * i))) density).
Proof.
  intros (Hn & Hfit & _) n Hc Hlen Hi Hj Hk. fold n in Hn, Hfit.
  unfold SimulationLib.fill_cell. fold n.
  rewrite (read3_of_get3 counts i j k c) by (lia || exact Hc). cbn [bind].
  pose proof (flat_index_lt n i j k Hi Hj Hk) as Hlt.
  rewrite flat_index_exact in * by assumption.
  rewrite write_in_range by lia. reflexivity.
Qed.

(** The earlier depositor, cell by cell: each real part is the counter
    of the cell times [mass / cell_width^3]; the imaginary parts are not
    written. *)
Lemma counting_fill_density_buffer_spec (s : Simulation) :
  mesh_ok s -> Forall in_unit_box (particles (particle_collection s)) ->
  let n := number_of_cells s in
  let ps := particles (particle_collection s) in
  exists density, SimulationLib.fill_density_buffer s = Ok (set_density s density)
    /\ Z.of_nat (length density) = n * n * n
    /\ (forall m : nat, snd <$> density !! m = snd <$> density_buffer s !! m)
    /\ forall i j k, 0 <= i < n -> 0 <= j < n -> 0 <= k < n ->
         exists d, density !! Z.to_nat (k + n * (j + n * i)) = Some d
           /\ (fst d == inject_Z (uint (Z.of_nat (cell_hits n i j k ps)))
                        * single_density s)%Q.
Proof.
  intros Hok Hps n ps. pose proof Hok as (Hn & Hfit & Hd & _). fold n in Hn, Hfit, Hd.
  assert (1 <= n < 2 ^ 32) as Hn' by nia.
  destruct (bin_particles_spec s Hn' Hps) as (counts & Hbin & Hshape & Hcounts).
  fold n ps in Hshape, Hcounts.
  unfold SimulationLib.fill_density_buffer. fold n. rewrite Hbin. cbn [bind].
  rewrite for_each_cells.
  destruct (for_each_invariant
              (fun done density =>
                 Z.of_nat (length density) = n * n * n
                 /\ (forall m : nat, snd <$> density !! m = snd <$> density_buffer s !! m)
                 /\ forall i j k, (i, j, k) ∈ done ->
                      exists d, density !! Z.to_nat (k + n * (j + n * i)) = Some d
                        /\ (fst d == inject_Z (uint (Z.of_nat (cell_hits n i j k ps)))
                                     * single_density s)%Q)
              (fun t => SimulationLib.fill_cell s counts (fst (fst t)) (snd (fst t)) (snd t))
              (cells n) (density_buffer s))
    as (density & Hrun & Hlen & Him & Hre).
  - split; [exact Hd |]. split; [reflexivity |].
    intros i j k Hin. apply elem_of_nil in Hin. contradiction.
  - intros done [[i j] k] rest d1 Hsplit (Hlen1 & Him1 & Hre1). cbn [fst snd].
    assert ((i, j, k) ∈ cells n) as Hin
      by (rewrite Hsplit; apply elem_of_app; right; left).
    apply elem_of_cells in Hin as (Hi & Hj & Hk).
    rewrite (fill_cell_spec s counts i j k _ d1 Hok (Hcounts i j k Hi Hj Hk))
      by assumption.
    fold n. eexists. split; [reflexivity |].
    pose proof (flat_index_lt n i j k Hi Hj Hk) as Hlt.
    rewrite flat_index_exact in Hlt by assumption.
    split; [rewrite length_alter; exact Hlen1 |]. split.
    + intros m. rewrite <- Him1.
      destruct (decide (m = Z.to_nat (k + n * (j + n * i)))) as [-> | Hne].
      * rewrite list_lookup_alter_eq. destruct (d1 !! _); reflexivity.
      * rewrite list_lookup_alter_ne by congruence. reflexivity.
    + intros i' j' k' Hin'.
      destruct (decide ((i', j', k') = (i, j, k))) as [[= -> -> ->] | Hne].
      * destruct (lookup_lt_is_Some_2 d1 (Z.to_nat (k + n * (j + n * i)))) as [d Hd1];
          [lia |].
        eexists. rewrite list_lookup_alter_eq, Hd1. split; [reflexivity |].
        cbn [fst]. unfold single_density. fold n. unfold Qdiv. ring.
      * apply elem_of_app in Hin' as [Hin' | Hin'];
          [| apply list_elem_of_singleton in Hin'; contradiction].
        assert ((i', j', k') ∈ cells n) as Hc
          by (rewrite Hsplit; apply elem_of_app; left; exact Hin').
        apply elem_of_cells in Hc as (Hi' & Hj' & Hk').
        rewrite list_lookup_alter_ne; [apply Hre1; exact Hin' |].
        intros Heq. apply Hne. symmetry. apply (flat_injective n); try assumption.
        pose proof (flat_index_lt n i' j' k' Hi' Hj' Hk') as Hlt'.
        rewrite flat_index_exact in Hlt' by assumption. lia.
  - rewrite Hrun. cbn [bind]. exists density. split; [reflexivity |].
    split; [exact Hlen |]. split; [exact Him |].
    intros i j k Hi Hj Hk. apply Hre. apply elem_of_cells. auto.
Qed.

(** The counting depositor leaves the imaginary parts as the constructor
    zeroed them. *)
Lemma counting_keeps_imaginary_zero (s : Simulation) :
  mesh_ok s -> Forall in_unit_box (particles (particle_collection s)) ->
  Forall (fun c => snd c = 0%Q) (density_buffer s) ->
  exists s', SimulationLib.fill_density_buffer s = Ok s'
    /\ mesh_ok s'
    /\ particle_collection s' = particle_collection s
    /\ Forall (fun c => snd c = 0%Q) (density_buffer s').
Proof.
  intros Hok Hps Him0.
  destruct (counting_fill_density_buffer_spec s Hok Hps)
    as (counted & Hrun & Hlen & Him & _).
  exists (set_density s counted). split; [exact Hrun |].
  split; [apply set_density_mesh_ok; assumption |]. split; [reflexivity |].
  cbn [set_density density_buffer]. apply Forall_lookup. intros m c Hc.
  pose proof (Him m) as Hsnd. rewrite Hc in Hsnd.
  destruct (density_buffer s !! m) as [c' |] eqn:E; [| discriminate Hsnd].
  cbn in Hsnd. injection Hsnd as ->. exact (Forall_lookup_1 _ _ _ _ Him0 E).
Qed.

(** C10: on a mesh that satisfies invariant 2 and on particles inside
    the unit box, the per-cell counting depositor of
    [src/lib/Simulation.cpp] and the per-particle accumulating depositor
    leave, in exact arithmetic, the same density buffer.  The particle
    count fits the [unsigned int] counters, and the imaginary parts are
    the zeros the constructor wrote, which the counting depositor never
    touches. *)
Theorem depositors_agree (s : Simulation) :
  mesh_ok s ->
  Forall in_unit_box (particles (particle_collection s)) ->
  get_num_particles (particle_collection s) < 2 ^ 32 ->
  Forall (fun c => snd c = 0%Q) (density_buffer s) ->
  exists counted accumulated,
    SimulationLib.fill_density_buffer s = Ok (set_density s counted)
    /\ fill_density_buffer s = Ok (set_density s accumulated)
    /\ same_values counted accumulated.
Proof.
  intros Hok Hps Hnp Him0. pose proof Hok as (Hn & Hfit & _).
  set (n := number_of_cells s) in *. set (ps := particles (particle_collection s)) in *.
  destruct (counting_fill_density_buffer_spec s Hok Hps)
    as (counted & Hrun1 & Hlen1 & Him1 & Hre1).
  destruct (fill_density_buffer_spec s Hok Hps)
    as (accumulated & Hrun2 & Hlen2 & _ & Hre2).
  fold n ps in Hlen1, Hre1, Hlen2, Hre2.
  exists counted, accumulated. split; [exact Hrun1 |]. split; [exact Hrun2 |].
  apply Forall2_same_length_lookup. split; [lia |].
  intros m x y Hx Hy.
  assert (Z.of_nat m < n * n * n) as Hm.
  { apply lookup_lt_Some in Hx. lia. }
  destruct (decode_bounds n (Z.of_nat m) Hn ltac:(lia)) as (Hi & Hj & Hk).
  pose proof (decode_flat n (Z.of_nat m) Hn ltac:(lia)) as Hflat.
  set (i := Z.of_nat m / (n * n)) in *.
  set (j := (Z.of_nat m / n) mod n) in *.
  set (k := Z.of_nat m mod n) in *.
  destruct (Hre1 i j k Hi Hj Hk) as (d & Hd & Hdre).
  destruct (Hre2 (Z.of_nat m) ltac:(lia)) as (c & Hc & Hcre & Hcim).
  rewrite Hflat in Hd. rewrite Nat2Z.id in Hd, Hc.
  assert (d = x) as -> by congruence. assert (c = y) as -> by congruence.
  split.
  - rewrite Hdre, Hcre. rewrite <- Hflat, hits_cell_hits by assumption.
    rewrite uint_small; [reflexivity |].
    pose proof (cell_hits_le n i j k ps) as Hle.
    unfold get_num_particles in Hnp. fold ps in Hnp. lia.
  - rewrite Hcim. pose proof (Him1 m) as Hsnd. rewrite Hx in Hsnd.
    destruct (density_buffer s !! m) as [c0' |] eqn:E; [| discriminate Hsnd].
    cbn in Hsnd. injection Hsnd as ->.
    rewrite (Forall_lookup_1 _ _ _ _ Him0 E). reflexivity.
Qed.

Lemma depositors_agree_witness :
  exists counted accumulated,
    SimulationLib.fill_density_buffer sample_simulation
    = Ok (set_density sample_simulation counted)
    /\ fill_density_buffer sample_simulation
       = Ok (set_density sample_simulation accumulated)
    /\ same_values counted accumulated.
Proof.
  apply (depositors_agree sample_simulation).
  - exact sample_simulation_mesh_ok.
  - repeat constructor; cbn; discriminate.
  - reflexivity.
  - repeat constructor.
Defined.

(** * Further properties of the code *)

(** ** The constructor *)

Lemma Simulation_new_cases (t_max t_step : Q) (g : particle_group) (W : Q)
    (num_cells : Z) (a : Q) :
  let valid := ((0 < t_max)%Q /\ (0 < t_step)%Q /\ (0 < W)%Q /\ (0 < a)%Q) in
  (~ valid /\ exists what, snd (Simulation_new t_max t_step g W num_cells a)
                           = Fail (Thrown (invalid_argument what)))
  \/ (valid /\ INT_MAX < num_cells
      /\ exists what, snd (Simulation_new t_max t_step g W num_cells a)
                      = Fail (Thrown (overflow_error what)))
  \/ (valid /\ num_cells <= INT_MAX
      /\ exists s, snd (Simulation_new t_max t_step g W num_cells a) = Ok s).
Proof.
  intros valid. unfold valid.
  destruct (Qlt_le_dec 0 t_max) as [H1 | H1].
  2:{ left. split; [intros (? & _); lra |].
      destruct (Simulation_new_rejects_t_max t_max t_step g W num_cells a H1) as [w ->].
      eauto. }
  destruct (Qlt_le_dec 0 t_step) as [H2 | H2].
  2:{ left. split; [intros (_ & ? & _); lra |].
      destruct (Simulation_new_rejects_t_step t_max t_step g W num_cells a H1 H2) as [w ->].
      eauto. }
  destruct (Qlt_le_dec 0 W) as [H3 | H3].
  2:{ left. split; [intros (_ & _ & ? & _); lra |].
      destruct (Simulation_new_rejects_W t_max t_step g W num_cells a H1 H2 H3) as [w ->].
      eauto. }
  destruct (Qlt_le_dec 0 a) as [H4 | H4].
  2:{ left. split; [intros (_ & _ & _ & ?); lra |].
      destruct (Simulation_new_rejects_e_factor t_max t_step g W num_cells a H1 H2 H3 H4)
        as [w ->].
      eauto. }
  right. destruct (Z_lt_le_dec INT_MAX num_cells) as [H5 | H5].
  - left. split; [auto |]. split; [exact H5 |].
    apply Simulation_new_rejects_large_num_cells; assumption.
  - right. split; [auto |]. split; [exact H5 |].
    rewrite Simulation_new_accepts by assumption. eauto.
Qed.


Lemma Simulation_new_buffers (t_max t_step : Q) (g : particle_group) (W : Q)
    (num_cells : Z) (a : Q) :
  (0 < t_max)%Q -> (0 < t_step)%Q -> (0 < W)%Q -> (0 < a)%Q ->
  0 <= num_cells <= INT_MAX ->
  exists s, snd (Simulation_new t_max t_step g W num_cells a) = Ok s
    /\ number_of_cells s = num_cells
    /\ particle_collection s = g
    /\ box_width s = W /\ expansion_factor s = a
    /\ time_max s = t_max /\ time_step s = t_step
    /\ density_buffer s = replicate (length (density_buffer s)) czero
    /\ potential_buffer s = density_buffer s
    /\ k_space_buffer s = density_buffer s
    /\ 0 <= Z.of_nat (length (density_buffer s)) < 2 ^ 32
    /\ (num_cells * num_cells * num_cells < 2 ^ 32 ->
        Z.of_nat (length (density_buffer s)) = num_cells * num_cells * num_cells).
Proof.
  intros H1 H2 H3 H4 Hn.
  rewrite Simulation_new_accepts by (assumption || lia).
  eexists. split; [reflexivity |]. cbn.
  repeat (split; [reflexivity |]).
  rewrite length_replicate.
  assert (0 <= umul (umul num_cells num_cells) num_cells < 2 ^ 32) as Hr
    by (unfold umul at 1; apply uint_range).
  repeat (split; [reflexivity |]). split; [lia |].
  intros Hfit. destruct (umul_cube_exact num_cells ltac:(lia) Hfit) as [_ ->]. nia.
Qed.



(** X3: on an object fresh from the constructor the Poisson step stays
    inside the buffers exactly when [1 <= N_c] and [N_c^3 < 2^32]; for a
    cell count of zero, or one whose cube does not fit the [unsigned int]
    buffer length, it reads or writes out of bounds. *)
Theorem constructed_poisson_step_in_bounds (dft : fftw_transform) (t_max t_step : Q)
    (g : particle_group) (W : Q) (num_cells : Z) (a : Q) (s : Simulation) :
  0 <= num_cells ->
  snd (Simulation_new t_max t_step g W num_cells a) = Ok s ->
  ((exists s', fill_potential_buffer dft s = Ok s')
   <-> 1 <= num_cells /\ num_cells * num_cells * num_cells < 2 ^ 32)
  /\ (~ (1 <= num_cells /\ num_cells * num_cells * num_cells < 2 ^ 32) ->
      fill_potential_buffer dft s = Fail OutOfBounds).
Proof.
  intros H0 Hs.
  assert (((0 < t_max)%Q /\ (0 < t_step)%Q /\ (0 < W)%Q /\ (0 < a)%Q)
          /\ num_cells <= INT_MAX) as ((H1 & H2 & H3 & H4) & Hmax).
  { destruct (Simulation_new_cases t_max t_step g W num_cells a)
      as [(_ & w & Hw) | [(_ & _ & w & Hw) | (Hv & Hmax & _)]];
      [congruence | congruence | split; assumption]. }
  destruct (Simulation_new_buffers t_max t_step g W num_cells a H1 H2 H3 H4
              (conj H0 Hmax))
    as (s1 & Hs1 & Hn & _ & _ & _ & _ & _ & Hd & Hp & Hk & Hlt & Hfit).
  assert (s1 = s) as -> by congruence.
  assert (~ (1 <= num_cells /\ num_cells * num_cells * num_cells < 2 ^ 32) ->
          fill_potential_buffer dft s = Fail OutOfBounds) as Hbad.
  { intros Hnot. unfold fill_potential_buffer, fftw_execute. rewrite Hn, Hk.
    destruct (Z.eq_dec num_cells 0) as [-> | Hne].
    - destruct (density_buffer s); [reflexivity | cbn in Hfit; lia].
    - assert (2 ^ 32 <= num_cells * num_cells * num_cells) as Hbig by lia.
      assert ((num_cells * num_cells * num_cells
               <=? Z.of_nat (length (density_buffer s))) = false) as ->
        by (apply Z.leb_gt; lia).
      reflexivity. }
  split; [| exact Hbad]. split.
  - intros [s' Hs'].
    destruct (Z_le_dec 1 num_cells) as [Hpos |];
      [destruct (Z_lt_dec (num_cells * num_cells * num_cells) (2 ^ 32)) |];
      try (split; assumption); rewrite Hbad in Hs' by lia; discriminate.
  - intros [Hpos Hsmall].
    destruct (fill_potential_buffer_spec dft s) as (s' & Hrun & _).
    + unfold mesh_ok. rewrite Hn, Hp, Hk, (Hfit Hsmall). auto.
    + exists s'. exact Hrun.
Qed.

Lemma constructed_poisson_step_in_bounds_witness :
  fill_potential_buffer copy_transform
    (mk_Simulation 1 (1 # 100) (mk_group 1 []) 1 2048 1 [] [] [])
  = Fail OutOfBounds.
Proof.
  apply (constructed_poisson_step_in_bounds copy_transform 1 (1 # 100) (mk_group 1 []) 1
           2048 1).
  - discriminate.
  - reflexivity.
  - intros [_ H]. vm_compute in H. discriminate H.
Defined.

(** ** The mesh index *)

(** X4: for a mesh with [N_c^3 < 2^32] the flat index used by the
    depositor and the gradient and the decoding used by the Poisson loop
    ([index / (N_c * N_c)], [(index / N_c) % N_c], [index % N_c], all in
    [unsigned int]) are inverse to each other between the cells
    [0 <= i, j, k < N_c] and the indices [0 <= index < N_c^3]. *)
Theorem flat_index_decode_round_trip (n : Z) :
  1 <= n -> n * n * n < 2 ^ 32 ->
  (forall idx, 0 <= idx < n * n * n ->
     let i := idx / umul n n in
     let j := (idx / n) mod n in
     let k := idx mod n in
     0 <= i < n /\ 0 <= j < n /\ 0 <= k < n /\ flat_index n i j k = idx)
  /\ (forall i j k, 0 <= i < n -> 0 <= j < n -> 0 <= k < n ->
        let idx := flat_index n i j k in
        0 <= idx < n * n * n
        /\ idx / umul n n = i /\ (idx / n) mod n = j /\ idx mod n = k).
Proof.
  intros Hn Hfit. destruct (umul_cube_exact n ltac:(lia) Hfit) as [Hsq _].
  rewrite Hsq. split.
  - intros idx Hidx i j k.
    destruct (decode_bounds n idx Hn Hidx) as (Hi & Hj & Hk). fold i j k in Hi, Hj, Hk.
    repeat (split; [lia |]).
    rewrite flat_index_exact by assumption. apply decode_flat; lia.
  - intros i j k Hi Hj Hk idx.
    pose proof (flat_index_lt n i j k Hi Hj Hk) as Hlt. fold idx in Hlt.
    split; [exact Hlt |].
    destruct (decode_bounds n idx Hn Hlt) as (Hi' & Hj' & Hk').
    pose proof (decode_flat n idx Hn ltac:(lia)) as Hflat.
    assert (idx = k + n * (j + n * i)) as Hidx
      by (unfold idx; apply flat_index_exact; assumption).
    assert ((idx / (n * n), (idx / n) mod n, idx mod n) = (i, j, k)) as Heq.
    { apply (flat_injective n); try assumption. lia. }
    injection Heq as -> -> ->. auto.
Qed.

Lemma flat_index_decode_round_trip_witness :
  let idx := flat_index 3 1 2 0 in
  0 <= idx < 3 * 3 * 3
  /\ idx / umul 3 3 = 1 /\ (idx / 3) mod 3 = 2 /\ idx mod 3 = 0.
Proof.
  destruct (flat_index_decode_round_trip 3) as [_ H]; [lia | reflexivity |].
  apply (H 1 2 0); lia.
Defined.

(** ** The depositor *)

Lemma fill_density_buffer_from_zero (s : Simulation) :
  mesh_ok s ->
  fill_density_buffer s
  = do density <~ for_each (particles (particle_collection s)) (deposit s)
                    (replicate (Z.to_nat (number_of_cells s * number_of_cells s
                                          * number_of_cells s)) czero);
    Ok (set_density s density).
Proof.
  intros (Hn & Hfit & Hd & _). unfold fill_density_buffer.
  rewrite memset_zero_all by (assumption || lia). reflexivity.
Qed.

(** X5: deposition does not accumulate over calls.  Whatever the density
    buffer of a well-formed object held before, the outcome is the same
    object; in particular a second deposition changes nothing, and only
    the density buffer is ever written. *)
Theorem fill_density_buffer_overwrites (s : Simulation) :
  mesh_ok s -> Forall in_unit_box (particles (particle_collection s)) ->
  exists density,
    fill_density_buffer s = Ok (set_density s density)
    /\ fill_density_buffer (set_density s density) = Ok (set_density s density)
    /\ forall before : list fftw_complex,
         Z.of_nat (length before)
         = number_of_cells s * number_of_cells s * number_of_cells s ->
         fill_density_buffer (set_density s before) = Ok (set_density s density).
Proof.
  intros Hok Hps.
  destruct (fill_density_buffer_spec s Hok Hps) as (density & Hrun & Hlen & _).
  exists density. split; [exact Hrun |].
  assert (forall before : list fftw_complex,
            Z.of_nat (length before)
            = number_of_cells s * number_of_cells s * number_of_cells s ->
            fill_density_buffer (set_density s before) = Ok (set_density s density))
    as Hany.
  { intros before Hbefore.
    rewrite fill_density_buffer_from_zero in Hrun by exact Hok.
    rewrite fill_density_buffer_from_zero
      by (apply set_density_mesh_ok; assumption).
    cbn [set_density particle_collection number_of_cells].
    destruct (for_each _ (deposit s) _) as [d |] eqn:E; [| discriminate Hrun].
    cbn [bind] in Hrun. injection Hrun as <-.
    rewrite (for_each_ext _ (deposit (set_density s before)) (deposit s))
      by reflexivity.
    rewrite E. reflexivity. }
  split; [apply Hany; exact Hlen | exact Hany].
Qed.

Lemma fill_density_buffer_overwrites_witness :
  exists density,
    fill_density_buffer sample_simulation = Ok (set_density sample_simulation density)
    /\ fill_density_buffer (set_density sample_simulation density)
       = Ok (set_density sample_simulation density).
Proof.
  destruct (fill_density_buffer_overwrites sample_simulation) as (density & H1 & H2 & _).
  - exact sample_simulation_mesh_ok.
  - repeat constructor; cbn; discriminate.
  - exists density. split; assumption.
Defined.

Lemma hits_Permutation (n m : Z) (ps ps' : list particle) :
  Permutation ps ps' -> hits n m ps = hits n m ps'.
Proof.
  intros H. unfold hits. apply Permutation_length.
  apply filter_Permutation. exact H.
Qed.

(** X6: in exact arithmetic the deposited density does not depend on the
    order in which the particles are visited: any permutation of the
    particle sequence gives the same value in every cell. *)
Theorem fill_density_buffer_order_irrelevant (s : Simulation) (ps' : list particle) :
  mesh_ok s -> Forall in_unit_box (particles (particle_collection s)) ->
  Permutation (particles (particle_collection s)) ps' ->
  exists density density',
    fill_density_buffer s = Ok (set_density s density)
    /\ fill_density_buffer (set_particles s ps')
       = Ok (set_density (set_particles s ps') density')
    /\ same_values density density'.
Proof.
  intros Hok Hps Hperm.
  assert (Forall in_unit_box ps') as Hps' by (rewrite <- Hperm; exact Hps).
  destruct (fill_density_buffer_spec s Hok Hps) as (d & Hrun & Hlen & _ & Hcells).
  destruct (fill_density_buffer_spec (set_particles s ps')
              (set_particles_mesh_ok s ps' Hok) Hps')
    as (d' & Hrun' & Hlen' & _ & Hcells').
  cbn [set_particles number_of_cells particle_collection particles] in Hlen', Hcells'.
  exists d, d'. split; [exact Hrun |]. split; [exact Hrun' |].
  apply Forall2_same_length_lookup. split; [lia |].
  intros m x y Hx Hy.
  assert (0 <= Z.of_nat m < number_of_cells s * number_of_cells s * number_of_cells s)
    as Hm by (apply lookup_lt_Some in Hx; lia).
  destruct (Hcells _ Hm) as (c & Hc & Hre & Him).
  destruct (Hcells' _ Hm) as (c' & Hc' & Hre' & Him').
  rewrite Nat2Z.id in Hc, Hc'.
  assert (c = x) as -> by congruence. assert (c' = y) as -> by congruence.
  split.
  - rewrite Hre, Hre'. rewrite (hits_Permutation _ _ _ _ Hperm). reflexivity.
  - rewrite Him, Him'. reflexivity.
Qed.

Lemma fill_density_buffer_order_irrelevant_witness :
  exists density density',
    fill_density_buffer sample_simulation = Ok (set_density sample_simulation density)
    /\ fill_density_buffer
         (set_particles sample_simulation
            (rev (particles (particle_collection sample_simulation))))
       = Ok (set_density
               (set_particles sample_simulation
                  (rev (particles (particle_collection sample_simulation))))
               density')
    /\ same_values density density'.
Proof.
  apply (fill_density_buffer_order_irrelevant sample_simulation).
  - exact sample_simulation_mesh_ok.
  - repeat constructor; cbn; discriminate.
  - apply Permutation_rev.
Defined.

(** X7: the depositor does not check positions.  A particle whose first
    coordinate lies in [1, 2) instead of [0, 1) gets the cell index
    [i >= N_c], and its write falls outside the density buffer (for a mesh
    with [2 N_c^3 <= 2^32], where the index does not wrap). *)
Theorem deposit_outside_unit_box (s : Simulation) (p : particle)
    (density : list fftw_complex) :
  mesh_ok s ->
  2 * (number_of_cells s * number_of_cells s * number_of_cells s) <= 2 ^ 32 ->
  (1 <= c0 (position p))%Q -> (c0 (position p) < 2)%Q ->
  in_unit_interval (c1 (position p)) -> in_unit_interval (c2 (position p)) ->
  Z.of_nat (length density)
  = number_of_cells s * number_of_cells s * number_of_cells s ->
  number_of_cells s <= cell_of (number_of_cells s) (c0 (position p))
  /\ deposit s p density = Fail OutOfBounds.
Proof.
  intros (Hn & Hfit & _) H2 Hx1 Hx2 Hy Hz Hlen.
  set (n := number_of_cells s) in *.
  assert (1 <= n < 2 ^ 32) as Hn' by nia.
  assert (0 < inject_Z n)%Q as Hnq.
  { change 0%Q with (inject_Z 0). rewrite <- Zlt_Qlt. lia. }
  assert (n <= Qfloor (c0 (position p) * inject_Z n) < 2 * n) as Hi.
  { split.
    - rewrite <- (Qfloor_Z n) at 1. apply Qfloor_resp_le. nra.
    - rewrite Zlt_Qlt. eapply Qle_lt_trans; [apply Qfloor_le |].
      rewrite inject_Z_mult. change (inject_Z 2) with 2%Q. nra. }
  assert (cell_of n (c0 (position p)) = Qfloor (c0 (position p) * inject_Z n)) as Hcell.
  { unfold cell_of, uint_of_double, floor. rewrite Qtruncate_inject_Z.
    apply uint_small. nia. }
  pose proof (cell_of_bounds n _ Hn' Hy) as Hj.
  pose proof (cell_of_bounds n _ Hn' Hz) as Hk.
  split; [rewrite Hcell; lia |].
  unfold deposit. fold n. rewrite Hcell.
  set (i := Qfloor (c0 (position p) * inject_Z n)) in *.
  set (j := cell_of n (c1 (position p))) in *.
  set (k := cell_of n (c2 (position p))) in *.
  assert (n * n <= n * n * n) by nia.
  assert (n * n <= n * i) by nia.
  assert (n * i <= n * (2 * n - 1)) by nia.
  assert (flat_index n i j k = k + n * (j + n * i)) as ->.
  { unfold flat_index, uadd, umul.
    rewrite (uint_small (n * i)) by nia.
    rewrite (uint_small (j + n * i)) by nia.
    assert (n * (j + n * i) <= n * (2 * n * n - 1)) by nia.
    rewrite (uint_small (n * (j + n * i))) by nia.
    apply uint_small. nia. }
  unfold write.
  assert ((k + n * (j + n * i) <? Z.of_nat (length density)) = false) as ->
    by (apply Z.ltb_ge; nia).
  rewrite andb_false_r. reflexivity.
Qed.

Lemma deposit_outside_unit_box_witness :
  deposit sample_simulation (mk_particle (mk3 1 (1 # 2) (1 # 2)) (mk3 0 0 0))
    (density_buffer sample_simulation)
  = Fail OutOfBounds.
Proof.
  apply (deposit_outside_unit_box sample_simulation
           (mk_particle (mk3 1 (1 # 2) (1 # 2)) (mk3 0 0 0))).
  - exact sample_simulation_mesh_ok.
  - vm_compute. discriminate.
  - vm_compute. discriminate.
  - reflexivity.
  - split; vm_compute; discriminate || reflexivity.
  - split; vm_compute; discriminate || reflexivity.
  - reflexivity.
Defined.

(** ** The Poisson step *)

Lemma fill_potential_buffer_determined (dft : fftw_transform) (s1 s2 s1' s2' : Simulation) :
  mesh_ok s1 -> mesh_ok s2 ->
  set_potential (set_k_space s2 (k_space_buffer s1)) (potential_buffer s1) = s1 ->
  fill_potential_buffer dft s1 = Ok s1' ->
  fill_potential_buffer dft s2 = Ok s2' ->
  s1' = s2'.
Proof.
  intros Hok1 Hok2 Hsame Hrun1 Hrun2.
  destruct (fill_potential_buffer_spec dft s1 Hok1)
    as (t1 & Ht1 & Hdc1 & Hk1 & Hp1 & Hd1 & Hg1 & Hw1 & Hn1 & Htm1 & Hts1 & Ha1 & Hm1).
  destruct (fill_potential_buffer_spec dft s2 Hok2)
    as (t2 & Ht2 & Hdc2 & Hk2 & Hp2 & Hd2 & Hg2 & Hw2 & Hn2 & Htm2 & Hts2 & Ha2 & Hm2).
  assert (t1 = s1') as -> by congruence. assert (t2 = s2') as -> by congruence.
  assert (density_buffer s1 = density_buffer s2 /\ number_of_cells s1 = number_of_cells s2
          /\ box_width s1 = box_width s2 /\ particle_collection s1 = particle_collection s2
          /\ time_max s1 = time_max s2 /\ time_step s1 = time_step s2
          /\ expansion_factor s1 = expansion_factor s2) as (Ed & En & Ew & Eg & Etm & Ets & Ea)
    by (rewrite <- Hsame; cbn; auto 10).
  assert (forall idx, norm_factor s1 idx = norm_factor s2 idx) as Enf
    by (intros idx; unfold norm_factor; rewrite En, Ew; reflexivity).
  assert (k_space_buffer s1' = k_space_buffer s2') as Ek.
  { apply list_eq. intros m.
    destruct Hm1 as (_ & _ & _ & _ & Hl1). destruct Hm2 as (_ & _ & _ & _ & Hl2).
    rewrite Hn1 in Hl1. rewrite Hn2, <- En in Hl2.
    destruct (decide (Z.of_nat m < number_of_cells s1 * number_of_cells s1 * number_of_cells s1))
      as [Hlt | Hge].
    - destruct m as [| m]; [congruence |].
      pose proof (Hk1 (Z.of_nat (S m)) ltac:(lia)) as E1.
      pose proof (Hk2 (Z.of_nat (S m))) as E2. rewrite <- En in E2.
      specialize (E2 ltac:(lia)). rewrite Nat2Z.id in E1, E2.
      rewrite E1, E2, Enf, Ed, En. reflexivity.
    - rewrite !lookup_ge_None_2 by lia. reflexivity. }
  destruct s1', s2'. cbn in *. subst. congruence.
Qed.

(** X8: the Poisson step reads the density buffer only.  Whatever the
    k-space and potential buffers of a well-formed object held before, the
    outcome is the same object; its potential buffer is the backward
    transform of its k-space buffer, and density, particles, box width
    and the remaining members are as before. *)
Theorem fill_potential_buffer_overwrites (dft : fftw_transform) (s : Simulation) :
  mesh_ok s ->
  exists s', fill_potential_buffer dft s = Ok s'
    /\ potential_buffer s'
       = map (dft (number_of_cells s) FFTW_BACKWARD (k_space_buffer s'))
             (range 0 (number_of_cells s * number_of_cells s * number_of_cells s))
    /\ s' = set_potential (set_k_space s (k_space_buffer s')) (potential_buffer s')
    /\ forall k_space potential : list fftw_complex,
         Z.of_nat (length k_space)
         = number_of_cells s * number_of_cells s * number_of_cells s ->
         Z.of_nat (length potential)
         = number_of_cells s * number_of_cells s * number_of_cells s ->
         fill_potential_buffer dft (set_potential (set_k_space s k_space) potential)
         = Ok s'.
Proof.
  intros Hok.
  destruct (fill_potential_buffer_spec dft s Hok)
    as (s' & Hrun & _ & _ & Hp & Hd & Hg & Hw & Hn & Htm & Hts & Ha & _).
  exists s'. split; [exact Hrun |]. split; [exact Hp |]. split.
  - destruct s, s'. cbn in *. subst. reflexivity.
  - intros k_space potential Hk Hpot.
    assert (mesh_ok (set_potential (set_k_space s k_space) potential)) as Hok2.
    { destruct Hok as (H1 & H2 & H3 & _). unfold mesh_ok. cbn. auto. }
    destruct (fill_potential_buffer_spec dft _ Hok2) as (s'' & Hrun2 & _).
    rewrite Hrun2. f_equal. symmetry.
    apply (fill_potential_buffer_determined dft s
             (set_potential (set_k_space s k_space) potential));
      try assumption.
    destruct s. reflexivity.
Qed.

Lemma fill_potential_buffer_overwrites_witness :
  exists s', fill_potential_buffer copy_transform sample_simulation = Ok s'
    /\ fill_potential_buffer copy_transform
         (set_potential (set_k_space sample_simulation sample_potential)
            (replicate 27 czero))
       = Ok s'.
Proof.
  destruct (fill_potential_buffer_overwrites copy_transform sample_simulation)
    as (s' & Hrun & _ & _ & Hany).
  - exact sample_simulation_mesh_ok.
  - exists s'. split; [exact Hrun |]. apply Hany; reflexivity.
Defined.

(** X9: for a positive box width, every mode other than the DC mode is
    scaled by a strictly negative factor. *)
Theorem norm_factor_negative (s : Simulation) (idx : Z) :
  mesh_ok s -> (0 < box_width s)%Q ->
  1 <= idx < number_of_cells s * number_of_cells s * number_of_cells s ->
  (norm_factor s idx < 0)%Q.
Proof.
  intros Hok HW Hidx. pose proof Hok as (Hn & _).
  destruct (norm_factor_green s idx Hok Hidx) as [Hpos Heq]. rewrite Heq.
  unfold green_factor.
  set (S := (idx / (number_of_cells s * number_of_cells s)) ^ 2
            + ((idx / number_of_cells s) mod number_of_cells s) ^ 2
            + (idx mod number_of_cells s) ^ 2) in *.
  assert (0 < inject_Z S)%Q as HS.
  { change 0%Q with (inject_Z 0). rewrite <- Zlt_Qlt. exact Hpos. }
  assert (0 < inject_Z (number_of_cells s ^ 3))%Q as HN.
  { change 0%Q with (inject_Z 0). rewrite <- Zlt_Qlt. apply Z.pow_pos_nonneg; lia. }
  assert (0 < / inject_Z S)%Q as HSi by (apply Qinv_lt_0_compat; exact HS).
  assert (0 < / (8 * inject_Z (number_of_cells s ^ 3)))%Q as HNi
    by (apply Qinv_lt_0_compat; lra).
  assert (0 < M_PI)%Q as Hpi by reflexivity.
  unfold Qdiv.
  set (u := (/ inject_Z S)%Q) in *.
  set (v := (/ (8 * inject_Z (number_of_cells s ^ 3)))%Q) in *.
  assert (0 < box_width s * box_width s)%Q as HWW by nra.
  assert (0 < 4 * M_PI * (box_width s * box_width s))%Q as H1 by nra.
  assert (0 < 4 * M_PI * (box_width s * box_width s) * u)%Q as H2 by nra.
  assert (0 < 4 * M_PI * (box_width s * box_width s) * u * (1 * v))%Q as H3 by nra.
  lra.
Qed.

Lemma norm_factor_negative_witness : (norm_factor sample_simulation 5 < 0)%Q.
Proof.
  apply (norm_factor_negative sample_simulation 5).
  - exact sample_simulation_mesh_ok.
  - reflexivity.
  - split; vm_compute; discriminate || reflexivity.
Defined.

(** ** The gradient and the integrator *)

Lemma phi_uniform (n : Z) (potential : list fftw_complex) (v : Q) (i j k : Z) :
  n * n * n < 2 ^ 32 -> Z.of_nat (length potential) = n * n * n ->
  Forall (fun c => (fst c == v)%Q) potential ->
  0 <= i < n -> 0 <= j < n -> 0 <= k < n ->
  (phi n potential i j k == v)%Q.
Proof.
  intros Hfit Hlen Hall Hi Hj Hk.
  destruct (read_phi n potential i j k Hfit Hlen Hi Hj Hk) as (c & Hc & <-).
  apply read_Ok in Hc as [_ Hc].
  exact (Forall_lookup_1 _ _ _ _ Hall Hc).
Qed.

Lemma quotient_of_equal (x y d : Q) : (x == y)%Q -> ((x - y) / d == 0)%Q.
Proof. intros H. rewrite H. unfold Qdiv. ring. Qed.

Lemma central_difference_uniform (s : Simulation) (potential : list fftw_complex)
    (v : Q) (i j k : Z) :
  mesh_ok s ->
  Z.of_nat (length potential)
  = number_of_cells s * number_of_cells s * number_of_cells s ->
  Forall (fun c => (fst c == v)%Q) potential ->
  0 <= i < number_of_cells s -> 0 <= j < number_of_cells s ->
  0 <= k < number_of_cells s ->
  vanishes (central_difference s potential i j k).
Proof.
  intros (Hn & Hfit & _) Hlen Hall Hi Hj Hk.
  set (n := number_of_cells s) in *.
  pose proof (Z.mod_pos_bound (i + 1) n ltac:(lia)).
  pose proof (Z.mod_pos_bound (i - 1) n ltac:(lia)).
  pose proof (Z.mod_pos_bound (j + 1) n ltac:(lia)).
  pose proof (Z.mod_pos_bound (j - 1) n ltac:(lia)).
  pose proof (Z.mod_pos_bound (k + 1) n ltac:(lia)).
  pose proof (Z.mod_pos_bound (k - 1) n ltac:(lia)).
  unfold vanishes, central_difference. fold n. cbn [c0 c1 c2].
  repeat split; apply quotient_of_equal;
    rewrite !(phi_uniform n potential v) by assumption; reflexivity.
Qed.

Lemma neighbours_coincide (n x : Z) : 1 <= n <= 2 -> (x + 1) mod n = (x - 1) mod n.
Proof.
  intros Hn. assert (n = 1 \/ n = 2) as [-> | ->] by lia.
  - rewrite !Z.mod_1_r. reflexivity.
  - replace (x + 1) with (x - 1 + 1 * 2) by lia. apply Z.mod_add. lia.
Qed.

Lemma central_difference_small_mesh (s : Simulation) (potential : list fftw_complex)
    (i j k : Z) :
  1 <= number_of_cells s <= 2 ->
  vanishes (central_difference s potential i j k).
Proof.
  intros Hn. unfold vanishes, central_difference. cbn [c0 c1 c2].
  rewrite !(neighbours_coincide (number_of_cells s)) by exact Hn.
  repeat split; apply quotient_of_equal; reflexivity.
Qed.

(** X10: a potential whose real part is the same in every cell has a
    gradient that vanishes in every cell. *)
Theorem gradient_of_uniform_potential (fuel : nat) (s : Simulation)
    (potential : list fftw_complex) (v : Q) :
  mesh_ok s -> (1 <= fuel)%nat ->
  Z.of_nat (length potential)
  = number_of_cells s * number_of_cells s * number_of_cells s ->
  Forall (fun c => (fst c == v)%Q) potential ->
  exists gradient, calculate_gradient fuel s potential = Ok gradient
    /\ forall i j k, 0 <= i < number_of_cells s -> 0 <= j < number_of_cells s ->
         0 <= k < number_of_cells s ->
         exists g, read3 gradient i j k = Ok g /\ vanishes g.
Proof.
  intros Hok Hfuel Hlen Hall.
  destruct (calculate_gradient_spec fuel s potential Hok Hfuel Hlen)
    as (gradient & Hrun & _ & Hget).
  exists gradient. split; [exact Hrun |]. intros i j k Hi Hj Hk.
  eexists. split; [apply read3_of_get3; try lia; apply Hget; assumption |].
  apply (central_difference_uniform s potential v); assumption.
Qed.

Lemma gradient_of_uniform_potential_witness :
  exists gradient,
    calculate_gradient 1 sample_simulation (replicate 27 (7%Q, 1%Q)) = Ok gradient
    /\ forall i j k, 0 <= i < 3 -> 0 <= j < 3 -> 0 <= k < 3 ->
         exists g, read3 gradient i j k = Ok g /\ vanishes g.
Proof.
  apply (gradient_of_uniform_potential 1 sample_simulation (replicate 27 (7%Q, 1%Q)) 7).
  - exact sample_simulation_mesh_ok.
  - lia.
  - reflexivity.
  - apply Forall_replicate. reflexivity.
Defined.

(** X11: on a mesh of one or two cells per axis the high and the low
    neighbour of a cell coincide, so the gradient vanishes in every cell
    whatever the potential. *)
Theorem gradient_vanishes_on_small_mesh (fuel : nat) (s : Simulation)
    (potential : list fftw_complex) :
  mesh_ok s -> (1 <= fuel)%nat -> number_of_cells s <= 2 ->
  Z.of_nat (length potential)
  = number_of_cells s * number_of_cells s * number_of_cells s ->
  exists gradient, calculate_gradient fuel s potential = Ok gradient
    /\ forall i j k, 0 <= i < number_of_cells s -> 0 <= j < number_of_cells s ->
         0 <= k < number_of_cells s ->
         exists g, read3 gradient i j k = Ok g /\ vanishes g.
Proof.
  intros Hok Hfuel Hsmall Hlen. pose proof Hok as (Hn & _).
  destruct (calculate_gradient_spec fuel s potential Hok Hfuel Hlen)
    as (gradient & Hrun & _ & Hget).
  exists gradient. split; [exact Hrun |]. intros i j k Hi Hj Hk.
  eexists. split; [apply read3_of_get3; try lia; apply Hget; assumption |].
  apply central_difference_small_mesh. lia.
Qed.

Lemma gradient_vanishes_on_small_mesh_witness :
  exists gradient,
    calculate_gradient 1
      (mk_Simulation 1 (1 # 100) (mk_group 1 []) 1 2 1
         (replicate 8 czero) (replicate 8 czero) (replicate 8 czero))
      [(1, 0); (2, 0); (3, 1); (5, 0); (8, 0); (13, 2); (21, 0); (34, 0)]%Q
    = Ok gradient
    /\ forall i j k, 0 <= i < 2 -> 0 <= j < 2 -> 0 <= k < 2 ->
         exists g, read3 gradient i j k = Ok g /\ vanishes g.
Proof.
  apply (gradient_vanishes_on_small_mesh 1
           (mk_Simulation 1 (1 # 100) (mk_group 1 []) 1 2 1
              (replicate 8 czero) (replicate 8 czero) (replicate 8 czero))).
  - repeat split; vm_compute; reflexivity || discriminate.
  - lia.
  - vm_compute. discriminate.
  - reflexivity.
Defined.

Lemma Qfloor_unique (p : Q) (z : Z) :
  (inject_Z z <= p)%Q -> (p < inject_Z z + 1)%Q -> Qfloor p = z.
Proof.
  intros Hle Hlt.
  assert (z <= Qfloor p) as H1.
  { rewrite <- (Qfloor_Z z). apply Qfloor_resp_le. exact Hle. }
  assert (Qfloor p < z + 1) as H2.
  { rewrite Zlt_Qlt, inject_Z_plus. change (inject_Z 1) with 1%Q.
    eapply Qle_lt_trans; [apply Qfloor_le | exact Hlt]. }
  lia.
Qed.

(** X12: the boundary loops compute the fractional part.  With
    [|floor p|] units of fuel they return [p - floor p], which lies in
    [0, 1); a coordinate already in [0, 1) is returned as it is. *)
Theorem apply_boundary_fractional_part (p : Q) (fuel : nat) :
  (boundary_fuel p <= fuel)%nat ->
  exists p', apply_boundary fuel p = Ok p'
    /\ (p' == p - inject_Z (Qfloor p))%Q
    /\ in_unit_interval p'
    /\ (in_unit_interval p -> p' = p).
Proof.
  intros Hfuel.
  destruct (apply_boundary_spec p fuel Hfuel) as (p' & z & Hrun & [H0 H1] & Hz).
  exists p'. split; [exact Hrun |].
  assert (Qfloor p = - z) as Hfloor.
  { apply Qfloor_unique; rewrite inject_Z_opp; lra. }
  split; [rewrite Hz, Hfloor, inject_Z_opp; ring |].
  split; [split; assumption |].
  intros [Hp0 Hp1]. unfold apply_boundary in Hrun.
  rewrite while_loop_exit in Hrun.
  - cbn [bind] in Hrun. rewrite while_loop_exit in Hrun; [congruence |].
    apply Qle_bool_false. exact Hp1.
  - destruct (Qlt_bool p 0) eqn:E; [apply Qlt_bool_iff in E; lra | reflexivity].
Qed.

Lemma apply_boundary_fractional_part_witness :
  exists p', apply_boundary 3 (-5 # 2) = Ok p'
    /\ (p' == (-5 # 2) - inject_Z (Qfloor (-5 # 2)))%Q.
Proof.
  destruct (apply_boundary_fractional_part (-5 # 2) 3) as (p' & Hrun & Heq & _).
  - vm_compute. lia.
  - exists p'. split; [exact Hrun | exact Heq].
Defined.

(** X13: the integrator writes the particles only and keeps their
    number: the three buffers, the box width, the mass and the remaining
    members are as before. *)
Theorem update_particles_frame (fuel : nat) (s : Simulation) :
  mesh_ok s -> Forall in_unit_box (particles (particle_collection s)) ->
  (step_fuel s <= fuel)%nat ->
  exists ps, update_particles fuel s = Ok (set_particles s ps)
    /\ length ps = length (particles (particle_collection s))
    /\ density_buffer (set_particles s ps) = density_buffer s
    /\ potential_buffer (set_particles s ps) = potential_buffer s
    /\ k_space_buffer (set_particles s ps) = k_space_buffer s
    /\ box_width (set_particles s ps) = box_width s
    /\ mass (particle_collection (set_particles s ps)) = mass (particle_collection s).
Proof.
  intros Hok Hps Hfuel.
  destruct (update_particles_spec fuel s Hok Hps Hfuel) as (ps & Hrun & Hrel).
  exists ps. split; [exact Hrun |].
  split; [symmetry; exact (Forall2_length _ _ _ Hrel) |].
  repeat split.
Qed.

Lemma update_particles_frame_witness :
  exists ps, update_particles 3 sample_simulation = Ok (set_particles sample_simulation ps)
    /\ length ps = length (particles (particle_collection sample_simulation)).
Proof.
  destruct (update_particles_frame 3 sample_simulation) as (ps & Hrun & Hlen & _).
  - exact sample_simulation_mesh_ok.
  - repeat constructor; cbn; discriminate.
  - vm_compute. lia.
  - exists ps. split; [exact Hrun | exact Hlen].
Defined.

Lemma kick_drift_without_force (s : Simulation) (p p' : particle) :
  vanishes (gradient_at s p) -> kick_drift s p p' -> free_drift s p p'.
Proof.
  intros (G0 & G1 & G2) (Hv & Hbox & [z0 H0] & [z1 H1] & [z2 H2]).
  unfold free_drift. rewrite Hv. cbn [kicked drifted c0 c1 c2] in *.
  repeat split; try apply Hbox.
  - rewrite G0. ring.
  - rewrite G1. ring.
  - rewrite G2. ring.
  - exists z0. rewrite H0, G0. ring.
  - exists z1. rewrite H1, G1. ring.
  - exists z2. rewrite H2, G2. ring.
Qed.

(** X14: in a potential whose real part is the same in every cell the
    integrator leaves every velocity as it was and moves every particle by
    [v * dt], wrapped into the unit box. *)
Theorem update_particles_in_uniform_potential (fuel : nat) (s : Simulation) (v : Q) :
  mesh_ok s -> Forall in_unit_box (particles (particle_collection s)) ->
  Forall (fun c => (fst c == v)%Q) (potential_buffer s) ->
  (step_fuel s <= fuel)%nat ->
  exists ps, update_particles fuel s = Ok (set_particles s ps)
    /\ Forall2 (free_drift s) (particles (particle_collection s)) ps.
Proof.
  intros Hok Hps Hpot Hfuel. pose proof Hok as (Hn & Hfit & _ & Hlen & _).
  destruct (update_particles_spec fuel s Hok Hps Hfuel) as (ps & Hrun & Hrel).
  exists ps. split; [exact Hrun |].
  assert (1 <= number_of_cells s < 2 ^ 32) as Hn' by nia.
  clear Hrun. induction Hrel as [| p p' l l' Hpp' _ IH]; [constructor |].
  apply Forall_cons in Hps as [(Hx & Hy & Hz) Hps].
  constructor; [| apply IH; exact Hps].
  apply kick_drift_without_force; [| exact Hpp'].
  apply (central_difference_uniform s (potential_buffer s) v);
    try assumption; apply cell_of_bounds; assumption.
Qed.

Lemma update_particles_in_uniform_potential_witness :
  exists ps,
    update_particles 3 (set_potential sample_simulation (replicate 27 (7%Q, 1%Q)))
    = Ok (set_particles (set_potential sample_simulation (replicate 27 (7%Q, 1%Q))) ps)
    /\ Forall2 (free_drift (set_potential sample_simulation (replicate 27 (7%Q, 1%Q))))
         (particles (particle_collection sample_simulation)) ps.
Proof.
  apply (update_particles_in_uniform_potential 3
           (set_potential sample_simulation (replicate 27 (7%Q, 1%Q))) 7).
  - repeat split; vm_compute; reflexivity || discriminate.
  - repeat constructor; cbn; discriminate.
  - apply Forall_replicate. reflexivity.
  - vm_compute. lia.
Defined.

(** ** The time loop *)



(** One iteration of the loop, with everything it leaves behind. *)
Lemma advance_keeps (dft : fftw_transform) (s : Simulation) :
  well_formed s ->
  exists fuel0 s',
    (forall fuel, (fuel0 <= fuel)%nat -> advance dft fuel s = Ok s')
    /\ well_formed s'
    /\ fill_density_buffer s = Ok (set_density s (density_buffer s'))
    /\ k_space_buffer s' !! 0%nat = Some (0%Q, 0%Q)
    /\ box_width s' = (box_width s * expansion_factor s)%Q
    /\ time_max s' = time_max s
    /\ time_step s' = time_step s
    /\ expansion_factor s' = expansion_factor s
    /\ number_of_cells s' = number_of_cells s
    /\ length (particles (particle_collection s'))
       = length (particles (particle_collection s)).
Proof.
  intros [Hok Hps].
  destruct (fill_density_buffer_spec s Hok Hps) as (density & Hrun1 & Hlen1 & _).
  pose proof (set_density_mesh_ok s density Hok Hlen1) as Hok1.
  destruct (fill_potential_buffer_spec dft _ Hok1)
    as (s2 & Hrun2 & Hdc & _ & _ & Hd & Hpc & Hw & Hn & Htm & Hts & Ha & Hok2).
  cbn [set_density particle_collection box_width number_of_cells time_max time_step
       expansion_factor density_buffer] in Hd, Hpc, Hw, Hn, Htm, Hts, Ha.
  assert (Forall in_unit_box (particles (particle_collection s2))) as Hps2
    by (rewrite Hpc; exact Hps).
  destruct (update_particles_spec (step_fuel s2) s2 Hok2 Hps2 (Nat.le_refl _))
    as (ps & Hrun3 & Hrel).
  exists (step_fuel s2), (box_expansion (set_particles s2 ps)).
  split; [| split; [split |]].
  - intros fuel Hfuel. apply (advance_monotone dft s (step_fuel s2)); [| exact Hfuel].
    unfold advance. rewrite Hrun1. cbn [bind]. rewrite Hrun2. cbn [bind].
    rewrite Hrun3. reflexivity.
  - apply box_expansion_mesh_ok, set_particles_mesh_ok. exact Hok2.
  - apply box_expansion_keeps_unit_box.
    cbn [set_particles particle_collection particles].
    exact (kick_drift_in_unit_box s2 _ _ Hrel).
  - unfold box_expansion.
    cbn [set_particles set_box_width k_space_buffer box_width time_max time_step
         expansion_factor density_buffer number_of_cells particle_collection particles].
    rewrite Hw, Ha, Hd. repeat split; try assumption.
    rewrite length_map. rewrite <- (Forall2_length _ _ _ Hrel), Hpc. reflexivity.
Qed.

(** X15: one iteration of the loop of [run] on a well formed object comes
    to an end for any fuel from some bound on and leaves a well formed
    object with as many particles.  The density buffer it leaves is the
    deposition of the positions before the move; bin 0 of the k-space
    buffer is zero, the box width is multiplied by the expansion factor, and
    the mesh size, the times and the expansion factor are as before. *)
Theorem advance_iteration (dft : fftw_transform) (s : Simulation) :
  well_formed s ->
  exists fuel0 s',
    (forall fuel, (fuel0 <= fuel)%nat -> advance dft fuel s = Ok s')
    /\ well_formed s'
    /\ fill_density_buffer s = Ok (set_density s (density_buffer s'))
    /\ k_space_buffer s' !! 0%nat = Some (0%Q, 0%Q)
    /\ box_width s' = (box_width s * expansion_factor s)%Q
    /\ time_max s' = time_max s
    /\ time_step s' = time_step s
    /\ expansion_factor s' = expansion_factor s
    /\ number_of_cells s' = number_of_cells s
    /\ length (particles (particle_collection s'))
       = length (particles (particle_collection s)).
Proof. exact (advance_keeps dft s). Qed.

Lemma advance_iteration_witness :
  exists fuel0 s',
    (forall fuel, (fuel0 <= fuel)%nat -> advance copy_transform fuel sample_simulation = Ok s')
    /\ well_formed s'
    /\ box_width s' = (box_width sample_simulation * expansion_factor sample_simulation)%Q.
Proof.
  destruct (advance_iteration copy_transform sample_simulation)
    as (fuel0 & s' & Hrun & Hwf & _ & _ & Hw & _).
  - split; [exact sample_simulation_mesh_ok |]. repeat constructor; cbn; discriminate.
  - exists fuel0, s'. repeat split; assumption || apply Hwf.
Defined.








(** ** The earlier version of the class *)

(** X18: [bin_particles] of the earlier version returns an N x N x N
    table whose counter (i, j, k) is the number of particles whose
    nearest-grid-point cell is (i, j, k), as an [unsigned int]. *)
Theorem bin_particles_counts (s : Simulation) :
  let n := number_of_cells s in
  1 <= n < 2 ^ 32 -> Forall in_unit_box (particles (particle_collection s)) ->
  exists counts, SimulationLib.bin_particles s = Ok counts
    /\ shape3 n counts
    /\ forall i j k, 0 <= i < n -> 0 <= j < n -> 0 <= k < n ->
         get3 counts i j k
         = Some (Z.of_nat (cell_hits n i j k (particles (particle_collection s)))
                 mod 2 ^ 32).
Proof. exact (bin_particles_spec s). Qed.

Lemma bin_particles_counts_witness :
  exists counts, SimulationLib.bin_particles sample_simulation = Ok counts
    /\ get3 counts 0 0 0
       = Some (Z.of_nat (cell_hits 3 0 0 0 (particles (particle_collection sample_simulation)))
               mod 2 ^ 32).
Proof.
  destruct (bin_particles_counts sample_simulation) as (counts & Hrun & _ & Hget).
  - cbn. lia.
  - repeat constructor; cbn; discriminate.
  - exists counts. split; [exact Hrun |]. apply Hget; cbn; lia.
Defined.

(** X19: the earlier [fill_density_buffer] assigns the real part of every
    cell, counter times [mass / cell_width^3], and never writes an
    imaginary part: whatever imaginary parts the buffer held are still
    there, and the real parts it held have no influence. *)
Theorem counting_depositor_writes_real_parts (s : Simulation) :
  mesh_ok s -> Forall in_unit_box (particles (particle_collection s)) ->
  let n := number_of_cells s in
  let ps := particles (particle_collection s) in
  exists density, SimulationLib.fill_density_buffer s = Ok (set_density s density)
    /\ Z.of_nat (length density) = n * n * n
    /\ (forall m : nat, snd <$> density !! m = snd <$> density_buffer s !! m)
    /\ forall i j k, 0 <= i < n -> 0 <= j < n -> 0 <= k < n ->
         exists d, density !! Z.to_nat (k + n * (j + n * i)) = Some d
           /\ (fst d == inject_Z (Z.of_nat (cell_hits n i j k ps) mod 2 ^ 32)
                        * single_density s)%Q.
Proof. exact (counting_fill_density_buffer_spec s). Qed.

Lemma counting_depositor_writes_real_parts_witness :
  exists density,
    SimulationLib.fill_density_buffer
      (set_density sample_simulation (replicate 27 (4%Q, 9%Q)))
    = Ok (set_density (set_density sample_simulation (replicate 27 (4%Q, 9%Q))) density)
    /\ (forall m : nat, snd <$> density !! m = snd <$> replicate 27 (4%Q, 9%Q) !! m).
Proof.
  destruct (counting_depositor_writes_real_parts
              (set_density sample_simulation (replicate 27 (4%Q, 9%Q))))
    as (density & Hrun & _ & Him & _).
  - repeat split; vm_compute; reflexivity || discriminate.
  - repeat constructor; cbn; discriminate.
  - exists density. split; [exact Hrun | exact Him].
Defined.

(** X20: the earlier [fill_potential_buffer] executes the forward plan
    into the potential buffer and then the backward plan, from the k-space
    buffer, into the same buffer.  What it leaves is the backward transform
    of the k-space buffer, which it does not write; the density buffer has
    no influence on the object it leaves. *)
Theorem earlier_fill_potential_buffer_ignores_density (dft : fftw_transform)
    (s : Simulation) (density : list fftw_complex) :
  mesh_ok s ->
  let n := number_of_cells s in
  Z.of_nat (length density) = n * n * n ->
  SimulationLib.fill_potential_buffer dft s
  = Ok (set_potential s (map (dft n FFTW_BACKWARD (k_space_buffer s)) (range 0 (n * n * n))))
  /\ SimulationLib.fill_potential_buffer dft (set_density s density)
     = Ok (set_density
             (set_potential s (map (dft n FFTW_BACKWARD (k_space_buffer s))
                                 (range 0 (n * n * n))))
             density).
Proof.
  intros (Hn & Hfit & Hd & Hp & Hk) n Hlen. fold n in Hn, Hfit, Hd, Hp, Hk.
  assert (0 <= n * n * n) as Hpos by nia.
  assert (forall input,
            Z.of_nat (length (map (dft n FFTW_FORWARD input) (range 0 (n * n * n))))
            = n * n * n) as Hout.
  { intros input. rewrite length_map, length_range. lia. }
  unfold SimulationLib.fill_potential_buffer.
  cbn [set_density number_of_cells density_buffer potential_buffer k_space_buffer].
  fold n. split.
  - rewrite (fftw_execute_ok dft n FFTW_FORWARD) by assumption. cbn [bind].
    rewrite fftw_execute_ok by (try assumption; apply Hout). reflexivity.
  - rewrite (fftw_execute_ok dft n FFTW_FORWARD) by assumption. cbn [bind].
    rewrite fftw_execute_ok by (try assumption; apply Hout). reflexivity.
Qed.

Lemma earlier_fill_potential_buffer_ignores_density_witness :
  SimulationLib.fill_potential_buffer copy_transform sample_simulation
  = Ok (set_potential sample_simulation
          (map (copy_transform 3 FFTW_BACKWARD (k_space_buffer sample_simulation))
             (range 0 (3 * 3 * 3))))
  /\ SimulationLib.fill_potential_buffer copy_transform
       (set_density sample_simulation (replicate 27 (4%Q, 9%Q)))
     = Ok (set_density
             (set_potential sample_simulation
                (map (copy_transform 3 FFTW_BACKWARD (k_space_buffer sample_simulation))
                   (range 0 (3 * 3 * 3))))
             (replicate 27 (4%Q, 9%Q))).
Proof.
  apply (earlier_fill_potential_buffer_ignores_density copy_transform sample_simulation
           (replicate 27 (4%Q, 9%Q)) sample_simulation_mesh_ok).
  reflexivity.
Defined.

(** ** The sweep driver *)

Module NBody_Comparison_Sweep.
Import NBody_Comparison.

Lemma filter_destination (r : Z) (a b : Q) (l : list Z) :
  NoDup l ->
  filter (fun m => msg_dest m = r)
    (flat_map (fun i => [mk_message 0 i 0 a; mk_message 0 i 1 b]) l)
  = if decide (r ∈ l) then [mk_message 0 r 0 a; mk_message 0 r 1 b] else [].
Proof.
  induction l as [| i l IH]; intros Hnd.
  - destruct (decide (r ∈ [])) as [Hin | _]; [| reflexivity].
    apply elem_of_nil in Hin. contradiction.
  - apply NoDup_cons in Hnd as [Hi Hnd]. cbn [flat_map app].
    rewrite !filter_cons. cbn [msg_dest]. rewrite (IH Hnd).
    destruct (decide (i = r)) as [-> | Hne].
    + destruct (decide (r ∈ l)) as [Hin | _]; [contradiction |].
      destruct (decide (r ∈ r :: l)) as [_ | Hout]; [reflexivity |].
      exfalso. apply Hout. apply elem_of_cons. left. reflexivity.
    + destruct (decide (r ∈ l)) as [Hin | Hout];
        destruct (decide (r ∈ i :: l)) as [Hin' | Hout']; try reflexivity.
      * exfalso. apply Hout'. apply elem_of_cons. right. exact Hin.
      * apply elem_of_cons in Hin' as [-> | Hin']; contradiction.
Qed.

(** X21: everything the coordinator sends before it simulates: to every
    rank from 1 to [num_proc - 1] the minimum under tag 0 and then the
    step under tag 1, and nothing to any other rank. *)
Theorem coordinator_traffic (num_proc : Z) (emin emax : Q) (r : Z) :
  filter (fun m => msg_dest m = r) (snd (coordinator num_proc emin emax))
  = if decide (1 <= r < num_proc)
    then [mk_message 0 r 0 emin;
          mk_message 0 r 1 ((emax - emin) / inject_Z (num_proc - 1))%Q]
    else [].
Proof.
  rewrite NBody_Comparison_Facts.coordinator_sends.
  rewrite filter_destination by apply NoDup_range.
  destruct (decide (r ∈ range 1 num_proc)) as [Hin | Hout];
    destruct (decide (1 <= r < num_proc)) as [Hr | Hr]; try reflexivity.
  - apply elem_of_range in Hin. contradiction.
  - exfalso. apply Hout. apply elem_of_range. exact Hr.
Qed.

(** X22: the expansion factor every process of a sweep with at least two
    processes simulates with, in exact arithmetic.  The coordinator takes
    the minimum.  The peer of rank [r] takes the step
    plus [r] times the minimum, since it receives the tag-0 message into
    its step and the tag-1 message into its minimum; that is the factor
    [a_min + r * step] under which the coordinator files its result exactly
    for rank 1 or when minimum and step coincide. *)
Theorem sweep_expansion_factors (num_proc : Z) (emin emax : Q) (r : Z) :
  2 <= num_proc -> 0 <= r < num_proc ->
  let step := ((emax - emin) / inject_Z (num_proc - 1))%Q in
  exists a, sweep num_proc emin emax r = Some a
    /\ (a == if r =? 0 then emin else step + inject_Z r * emin)%Q
    /\ ((a == emin + inject_Z r * step)%Q <-> r = 0 \/ r = 1 \/ (emin == step)%Q).
Proof.
  intros _ Hr step. destruct (Z.eq_dec r 0) as [-> | Hne].
  - exists (fst (coordinator num_proc emin emax)). split; [reflexivity |].
    pose proof (NBody_Comparison_Facts.coordinator_expansion_factor num_proc emin emax) as H.
    split; [exact H |]. split; [intros _; left; reflexivity |].
    intros _. rewrite H. change (inject_Z 0) with 0%Q. ring.
  - assert (1 <= r < num_proc) as Hr' by lia.
    pose proof (NBody_Comparison_Facts.sweep_peer num_proc emin emax r Hr') as Hs.
    eexists. split; [exact Hs |].
    assert ((r =? 0) = false) as -> by (apply Z.eqb_neq; exact Hne).
    split; [reflexivity |].
    pose proof (NBody_Comparison_Facts.sweep_peer_as_specified
                  num_proc emin emax r _ Hr' Hs) as Hiff.
    cbv zeta in Hiff. split; [intros H; right; apply Hiff; exact H |].
    intros [H | H]; [contradiction | apply Hiff; exact H].
Qed.

Lemma sweep_expansion_factors_witness :
  exists a, sweep 4 1 (106 # 100) 3 = Some a
    /\ (a == 302 # 100)%Q.
Proof.
  destruct (sweep_expansion_factors 4 1 (106 # 100) 3) as (a & Hs & Ha & _).
  - lia.
  - lia.
  - exists a. split; [exact Hs | rewrite Ha; reflexivity].
Defined.

End NBody_Comparison_Sweep.

(** ** What the constructor prints *)

Lemma warnings_differ : warn_contracting <> warn_grid_length.
Proof. unfold warn_contracting, warn_grid_length. discriminate. Qed.

(** X23: the warnings of the constructor.  The warning about a
    contracting universe is printed exactly when the four checks of the
    real arguments pass and [e_factor < 1], also when the check of
    [num_cells] then throws; the warning about the grid length is printed
    exactly when the object is built and [num_cells > 400]. *)
Theorem Simulation_new_warnings (t_max t_step : Q) (g : particle_group) (W : Q)
    (num_cells : Z) (a : Q) :
  let out := Simulation_new t_max t_step g W num_cells a in
  (warn_contracting ∈ fst out
   <-> (0 < t_max)%Q /\ (0 < t_step)%Q /\ (0 < W)%Q /\ (0 < a)%Q /\ (a < 1)%Q)
  /\ (warn_grid_length ∈ fst out
      <-> (exists s, snd out = Ok s) /\ 400 < num_cells).
Proof.
  pose proof warnings_differ as Hdiff.
  cbv zeta. unfold Simulation_new.
  destruct (Qle_bool t_max 0) eqn:E1.
  { apply Qle_bool_iff in E1. cbn [fst snd]. split; split.
    - intros H. apply elem_of_nil in H. contradiction.
    - intros (H & _). lra.
    - intros H. apply elem_of_nil in H. contradiction.
    - intros [[s Hs] _]. discriminate Hs. }
  destruct (Qle_bool t_step 0) eqn:E2.
  { apply Qle_bool_iff in E2. cbn [fst snd]. split; split.
    - intros H. apply elem_of_nil in H. contradiction.
    - intros (_ & H & _). lra.
    - intros H. apply elem_of_nil in H. contradiction.
    - intros [[s Hs] _]. discriminate Hs. }
  destruct (Qle_bool W 0) eqn:E3.
  { apply Qle_bool_iff in E3. cbn [fst snd]. split; split.
    - intros H. apply elem_of_nil in H. contradiction.
    - intros (_ & _ & H & _). lra.
    - intros H. apply elem_of_nil in H. contradiction.
    - intros [[s Hs] _]. discriminate Hs. }
  destruct (Qle_bool a 0) eqn:E4.
  { apply Qle_bool_iff in E4. cbn [fst snd]. split; split.
    - intros H. apply elem_of_nil in H. contradiction.
    - intros (_ & _ & _ & H & _). lra.
    - intros H. apply elem_of_nil in H. contradiction.
    - intros [[s Hs] _]. discriminate Hs. }
  apply Qle_bool_false in E1, E2, E3, E4.
  assert (warn_contracting ∈ (if Qlt_bool a 1 then [warn_contracting] else [])
          <-> (a < 1)%Q) as Hc.
  { destruct (Qlt_bool a 1) eqn:E5.
    - apply Qlt_bool_iff in E5. split; [intros _; exact E5 |].
      intros _. apply list_elem_of_singleton. reflexivity.
    - split; [intros H; apply elem_of_nil in H; contradiction |].
      intros H. apply Qlt_bool_iff in H. congruence. }
  assert (~ warn_grid_length ∈ (if Qlt_bool a 1 then [warn_contracting] else []))
    as Hg.
  { destruct (Qlt_bool a 1); intros H.
    - apply list_elem_of_singleton in H. congruence.
    - apply elem_of_nil in H. exact H. }
  destruct (uint INT_MAX <? num_cells) eqn:E6; cbn [fst snd].
  - split; split.
    + intros H. apply Hc in H. repeat split; assumption.
    + intros (_ & _ & _ & _ & H). apply Hc. exact H.
    + intros H. contradiction.
    + intros [[s Hs] _]. discriminate Hs.
  - split; split.
    + intros H. apply elem_of_app in H as [H | H].
      * apply Hc in H. repeat split; assumption.
      * destruct (400 <? num_cells); [| apply elem_of_nil in H; contradiction].
        apply list_elem_of_singleton in H. congruence.
    + intros (_ & _ & _ & _ & H). apply elem_of_app. left. apply Hc. exact H.
    + intros H. apply elem_of_app in H as [H | H]; [contradiction |].
      destruct (400 <? num_cells) eqn:E7; [| apply elem_of_nil in H; contradiction].
      apply Z.ltb_lt in E7. split; [eauto | exact E7].
    + intros [_ H]. apply elem_of_app. right. apply Z.ltb_lt in H. rewrite H.
      apply list_elem_of_singleton. reflexivity.
Qed.
